(** * Udemy Superlearner: playback-rate arithmetic, video locator and synchronizer

    A shallow embedding of the extension's content script
    (extension/content/playbackRate.js) and popup script
    (extension/popup/popup.js), followed by the properties of the
    rate arithmetic, the video locator, the synchronizer and the keyboard
    interpreter.

    Numbers.  JavaScript numbers are IEEE-754 binary64 values.  The scripts
    are embedded once, over an interface [JsNumber] of the operations they
    use ([+], [-], [*], [/], [<], [>], [===], [Math.round], [Math.max],
    [Math.min], truthiness).  Two instances are given:
    - [float_JsNumber]: binary64, on Rocq's primitive floats, used to run the
      scripts on concrete inputs exactly as a JavaScript engine would;
    - [Q_JsNumber]: exact rational arithmetic (no rounding error, no NaN, no
      infinities), used for the laws that depend on how rounding behaves.
    Laws that rest on the control flow or on comparisons alone are proved
    for every number model, respectively for every model with the order laws
    of [JsOrder], which both instances satisfy.

    Effects.  The content script's module-level [state], the video elements
    it holds references to, [chrome.storage.sync], the console and the
    on-screen feedback are fields of an explicit world that every function
    takes and returns.  [async] functions are run to completion at the point
    of call.  The document tree is the host page's: the script queries it,
    and what the script writes into it (the label of the rate button, the
    toast) is recorded as on-screen feedback rather than in the tree. *)

From Stdlib Require Import ZArith QArith Qround Lqa Lia Bool List.
From Stdlib Require Import PrimFloat FloatOps SpecFloat FloatAxioms Uint63.
From stdpp Require Import gmap strings.
Import ListNotations.

Set Default Proof Using "Type".

(** ** JavaScript numbers *)

Class JsNumber (num : Type) := {
  of_Z : Z -> num;                 (* an integer literal *)
  js_add : num -> num -> num;      (* a + b *)
  js_sub : num -> num -> num;      (* a - b *)
  js_mul : num -> num -> num;      (* a * b *)
  js_div : num -> num -> num;      (* a / b *)
  js_lt : num -> num -> bool;      (* a < b *)
  js_eq : num -> num -> bool;      (* a === b *)
  Math_round : num -> num;
  Math_max : num -> num -> num;
  Math_min : num -> num -> num;
  truthy : num -> bool             (* ToBoolean *)
}.

Declare Scope js_scope.
Delimit Scope js_scope with js.
Notation "a + b" := (js_add a b) : js_scope.
Notation "a - b" := (js_sub a b) : js_scope.
Notation "a * b" := (js_mul a b) : js_scope.
Notation "a / b" := (js_div a b) : js_scope.
Notation "a <? b" := (js_lt a b) : js_scope.
Notation "a >? b" := (js_lt b a) : js_scope.
Notation "a === b" := (js_eq a b) (at level 70, no associativity) : js_scope.
Notation "a !== b" := (negb (js_eq a b)) (at level 70, no associativity) : js_scope.

(** A decimal literal with two fractional digits: [hundredths 5] is [0.05],
    [hundredths 300] is [3.0]. *)
Definition hundredths {num} `{JsNumber num} (k : Z) : num :=
  (of_Z k / of_Z 100)%js.

(** *** Exact rationals *)

Definition Qltb (a b : Q) : bool := negb (Qle_bool b a).

Definition Qround_half_up (x : Q) : Q := inject_Z (Qfloor (x + (1 # 2))).

#[export] Instance Q_JsNumber : JsNumber Q := {|
  of_Z := inject_Z;
  js_add := Qplus;
  js_sub := Qminus;
  js_mul := Qmult;
  js_div := Qdiv;
  js_lt := Qltb;
  js_eq := Qeq_bool;
  Math_round := Qround_half_up;
  Math_max := fun a b => if Qltb a b then b else a;
  Math_min := fun a b => if Qltb b a then b else a;
  truthy := fun a => negb (Qeq_bool a 0)
|}.

(** *** binary64 *)

(** The binary64 value of an integer below 2^53 in magnitude (integer
    literals and the results of [Math.round] on fractional arguments). *)
Definition float_of_Z (z : Z) : float :=
  match z with
  | Z0 => PrimFloat.zero
  | Zpos _ => PrimFloat.of_uint63 (Uint63.of_Z z)
  | Zneg p => PrimFloat.opp (PrimFloat.of_uint63 (Uint63.of_Z (Zpos p)))
  end.

(** [Math.round]: the integer closest to [x], ties towards +∞; NaN, ±∞, ±0
    and integers are returned as they are; results in (-0.5, 0) and [-0.5]
    itself give -0. *)
Definition float_round (x : float) : float :=
  match Prim2SF x with
  | S754_finite s m e =>
      if (0 <=? e)%Z then x
      else
        let d := (2 ^ (- e))%Z in
        let v := if s then Zneg m else Zpos m in
        let n := ((2 * v + d) / (2 * d))%Z in
        if (n =? 0)%Z
        then (if s then PrimFloat.neg_zero else PrimFloat.zero)
        else float_of_Z n
  | _ => x
  end.

Definition float_max (a b : float) : float :=
  if PrimFloat.is_nan a then a
  else if PrimFloat.is_nan b then b
  else if PrimFloat.ltb a b then b
  else if PrimFloat.ltb b a then a
  else if PrimFloat.is_zero a && PrimFloat.get_sign a then b else a.

Definition float_min (a b : float) : float :=
  if PrimFloat.is_nan a then a
  else if PrimFloat.is_nan b then b
  else if PrimFloat.ltb a b then a
  else if PrimFloat.ltb b a then b
  else if PrimFloat.is_zero a && PrimFloat.get_sign a then a else b.

#[export] Instance float_JsNumber : JsNumber float := {|
  of_Z := float_of_Z;
  js_add := PrimFloat.add;
  js_sub := PrimFloat.sub;
  js_mul := PrimFloat.mul;
  js_div := PrimFloat.div;
  js_lt := PrimFloat.ltb;
  js_eq := PrimFloat.eqb;
  Math_round := float_round;
  Math_max := float_max;
  Math_min := float_min;
  truthy := fun a => negb (PrimFloat.is_zero a || PrimFloat.is_nan a)
|}.

(** *** Comparisons in the statements

    [<=], which the scripts do not use but the laws are stated with, and the
    order laws the rate laws rest on.  Both number models satisfy them; in
    binary64 they hold with NaN anywhere, since every comparison with NaN is
    false. *)
Class JsOrder (num : Type) `{JsNumber num} := {
  js_le : num -> num -> bool;      (* a <= b *)
  js_lt_irrefl : forall a, js_lt a a = false;
  js_lt_asym : forall a b, js_lt a b = true -> js_lt b a = false;
  js_lt_le_trans :
    forall a b c, js_lt a b = true -> js_le b c = true -> js_lt a c = true;
  js_le_not_lt : forall a b, js_le a b = true -> js_lt b a = false
}.

Notation "a <=? b" := (js_le a b) : js_scope.

(** ** Configuration and rate arithmetic (content script) *)

Section RateArithmetic.
Context {num : Type} `{JsNumber num}.
Local Open Scope js_scope.

(** [DEFAULT_CONFIG]; its [decimals] entry is never read and is left out. *)
Record Config := {
  minRate : num;
  maxRate : num;
  fineIncrement : num;
  coarseIncrement : num;
  defaultRate : num
}.

Definition DEFAULT_CONFIG : Config := {|
  minRate := hundredths 50;
  maxRate := hundredths 300;
  fineIncrement := hundredths 5;
  coarseIncrement := hundredths 25;
  defaultRate := hundredths 100
|}.

(** The first argument of [setPlaybackRate]: the strings ['increase'] and
    ['decrease'], or a number. *)
Inductive RateArg :=
  | increase
  | decrease
  | explicit (rate : num).

(** The [options] argument of [setPlaybackRate]; a missing property reads as
    [undefined], which is falsy. *)
Record Options := { coarse : bool; wrap : bool }.

Definition no_options : Options := {| coarse := false; wrap := false |}.

(** [Math.round(x * 100) / 100]. *)
Definition round2 (x : num) : num := Math_round (x * of_Z 100) / of_Z 100.

(** The body of the [if (rate === 'increase' || rate === 'decrease')] branch
    of [setPlaybackRate], in two steps.  [newRate] is the value of the
    variable [newRate] after the two bound checks (the step from
    [video.playbackRate], then "Clamp to bounds"). *)
Definition newRate (config : Config) (currentRate : num)
    (up : bool) (options : Options) : num :=
  let increment :=
    if coarse options then coarseIncrement config else fineIncrement config in
  let newRate :=
    if up then currentRate + increment else currentRate - increment in
  let newRate :=
    if newRate >? maxRate config
    then (if wrap options then minRate config else maxRate config)
    else newRate in
  let newRate :=
    if newRate <? minRate config
    then (if wrap options then maxRate config else minRate config)
    else newRate in
  newRate.

(** [rate = Math.round(newRate * 100) / 100]: the rate the branch leaves in
    [rate]. *)
Definition directionalRate (config : Config) (currentRate : num)
    (up : bool) (options : Options) : num :=
  round2 (newRate config currentRate up options).

(** The value of [rate] when [setPlaybackRate] reaches "Apply the rate":
    computed from the video's current rate for a directional request, the
    argument itself otherwise. *)
Definition targetRate (config : Config) (currentRate : num)
    (rate : RateArg) (options : Options) : num :=
  match rate with
  | increase => directionalRate config currentRate true options
  | decrease => directionalRate config currentRate false options
  | explicit r => r
  end.

End RateArithmetic.

Arguments Config num : clear implicits.
Arguments RateArg num : clear implicits.

(** ** The page: document tree, video elements, script state, storage *)

(** Identity of an element object.  Two references are the same object
    exactly when they are equal. *)
Definition ref := nat.

#[local] Unset Elimination Schemes.

(** A node of the document tree: an element, or a node that holds
    character data (text, comment and the like, told apart by [nodeType]).
    [localName] is the lower-case tag name that type selectors compare with.
    The character data itself is not kept: the script never reads it, and
    what it writes is recorded as on-screen feedback. *)
Inductive Node :=
  | Element (id : ref) (localName : string) (classList : list string)
            (attributes : list (string * string)) (childNodes : list Node)
  | CharacterData (id : ref) (nodeType : nat).

#[local] Set Elimination Schemes.

(** [Node.TEXT_NODE] *)
Definition TEXT_NODE : nat := 3.

Definition node_id (n : Node) : ref :=
  match n with Element id _ _ _ _ => id | CharacterData id _ => id end.
Definition is_element (n : Node) : bool :=
  match n with Element _ _ _ _ _ => true | CharacterData _ _ => false end.
(** The local name, classes, attributes and children of an element; a node
    of another kind has none. *)
Definition node_name (n : Node) : string :=
  match n with Element _ name _ _ _ => name | CharacterData _ _ => "" end.
Definition node_classes (n : Node) : list string :=
  match n with Element _ _ cls _ _ => cls | CharacterData _ _ => [] end.
Definition node_attributes (n : Node) : list (string * string) :=
  match n with Element _ _ _ attrs _ => attrs | CharacterData _ _ => [] end.
Definition node_children (n : Node) : list Node :=
  match n with Element _ _ _ _ kids => kids | CharacterData _ _ => [] end.

(** A compound selector [tag.class[attr="value"]], each part optional. *)
Record Compound := {
  sel_tag : option string;
  sel_class : option string;
  sel_attr : option (string * string)
}.

(** The selectors the scripts use: a compound selector, or two compound
    selectors joined by the descendant combinator. *)
Inductive Selector :=
  | Sel (c : Compound)
  | Desc (ancestor c : Compound).

Definition has_class (cls : string) (n : Node) : bool :=
  existsb (String.eqb cls) (node_classes n).

Fixpoint getAttribute (attrs : list (string * string)) (name : string)
    : option string :=
  match attrs with
  | [] => None
  | (k, v) :: rest => if String.eqb k name then Some v else getAttribute rest name
  end.

Definition has_attr (kv : string * string) (n : Node) : bool :=
  match getAttribute (node_attributes n) (fst kv) with
  | Some v => String.eqb v (snd kv)
  | None => false
  end.

(** Selectors match elements only. *)
Definition matches (c : Compound) (n : Node) : bool :=
  is_element n
  && match sel_tag c with Some t => String.eqb t (node_name n) | None => true end
  && match sel_class c with Some k => has_class k n | None => true end
  && match sel_attr c with Some kv => has_attr kv n | None => true end.

(** Elements matching [sel] below and including [n], in document order.
    [inside] records that an ancestor matched the left side of a descendant
    combinator. *)
Fixpoint select (sel : Selector) (inside : bool) (n : Node) : list Node :=
  match n with
  | Element _ _ _ _ kids =>
      let hit :=
        match sel with
        | Sel c => matches c n
        | Desc _ c => inside && matches c n
        end in
      let inside' :=
        match sel with
        | Sel _ => inside
        | Desc a _ => inside || matches a n
        end in
      (if hit then [n] else []) ++ concat (map (select sel inside') kids)
  | CharacterData _ _ => []
  end.

(** [document.querySelectorAll(sel)] and [document.querySelector(sel)], for
    the document whose root element is [document]. *)
Definition querySelectorAll (document : Node) (sel : Selector) : list Node :=
  select sel false document.

Definition querySelector (document : Node) (sel : Selector) : option Node :=
  head (querySelectorAll document sel).

(** [element.querySelector(c)] for a compound selector: the first match
    among the descendants of [element], which is no candidate itself. *)
Definition element_querySelector (element : Node) (c : Compound) : option Node :=
  head (concat (map (select (Sel c) false) (node_children element))).

(** ['video.vjs-tech'] *)
Definition sel_vjs_tech : Selector :=
  Sel {| sel_tag := Some "video"; sel_class := Some "vjs-tech"; sel_attr := None |}.
(** ['[data-purpose="video-player"] video'] *)
Definition sel_player_video : Selector :=
  Desc {| sel_tag := None; sel_class := None;
          sel_attr := Some ("data-purpose", "video-player") |}
       {| sel_tag := Some "video"; sel_class := None; sel_attr := None |}.
(** ['video[preload="auto"]'] *)
Definition sel_preload_auto : Selector :=
  Sel {| sel_tag := Some "video"; sel_class := None;
         sel_attr := Some ("preload", "auto") |}.
(** ['video'] *)
Definition sel_video : Selector :=
  Sel {| sel_tag := Some "video"; sel_class := None; sel_attr := None |}.
(** ['[data-purpose="playback-rate-button"]'] *)
Definition sel_rate_button : Selector :=
  Sel {| sel_tag := None; sel_class := None;
         sel_attr := Some ("data-purpose", "playback-rate-button") |}.
(** ['span'] *)
Definition sel_span : Compound :=
  {| sel_tag := Some "span"; sel_class := None; sel_attr := None |}.

(** The listeners [attachVideoListeners] registers: the closure
    [applyStoredRate] and the anonymous [ratechange] monitor.  Both capture
    the element they are registered on. *)
Inductive Listener :=
  | applyStoredRate_listener
  | ratechange_listener.

Section Page.
Context {num : Type} `{JsNumber num}.
Local Open Scope js_scope.

(** The mutable properties of an [HTMLVideoElement] that the script reads
    or writes. *)
Record Video := {
  playbackRate : num;
  readyState : nat;
  currentTime : num;
  paused : bool;
  _superlearnerAttached : bool;
  listeners : list (string * Listener)
}.

(** A video element nobody has touched yet. *)
Definition fresh_video : Video := {|
  playbackRate := of_Z 1;
  readyState := 0;
  currentTime := of_Z 0;
  paused := true;
  _superlearnerAttached := false;
  listeners := []
|}.

(** The module-level [state] object. *)
Record State := {
  currentVideo : option ref;
  keyListenerAdded : bool;
  config : Config num;
  customPresets : list num;
  initialized : bool
}.

Definition initial_state : State := {|
  currentVideo := None;
  keyListenerAdded := false;
  config := DEFAULT_CONFIG;
  customPresets :=
    [hundredths 75; hundredths 100; hundredths 125; hundredths 150;
     hundredths 175; hundredths 200];
  initialized := false
|}.

(** A stored [udemy_config] object: any subset of the configuration keys. *)
Record PartialConfig := {
  p_minRate : option num;
  p_maxRate : option num;
  p_fineIncrement : option num;
  p_coarseIncrement : option num;
  p_defaultRate : option num
}.

(** [chrome.storage.sync]: the three keys the extension uses, each absent
    ([None]) or present. *)
Record Storage := {
  udemy_playback_rate : option num;
  udemy_config : option PartialConfig;
  udemy_presets : option (list num)
}.

Definition empty_storage : Storage :=
  {| udemy_playback_rate := None; udemy_config := None; udemy_presets := None |}.

(** Lines written by [log]; template strings are kept as the rate they
    format. *)
Inductive LogEntry :=
  | No_video_found
  | Speed_set_to (rate : num)
  | Applied_stored_rate (rate : num)
  | Keyboard_shortcuts_active
  | Video_found_immediately
  | New_video_detected
  | Video_found_via_polling
  | Initialized.

(** On-screen feedback: the text written into the host page's rate button
    and the toast, each kept as the rate shown. *)
Inductive Feedback :=
  | RateDisplay (rate : num)
  | Toast (rate : num).

(** Everything the content script can read or write. *)
Record World := {
  document : Node;
  heap : gmap ref Video;
  state : State;
  storage : Storage;
  console : list LogEntry;
  screen : list Feedback
}.

(** The element object behind a reference; an element the world has no
    record of is as the browser creates it. *)
Definition deref (w : World) (v : ref) : Video :=
  default fresh_video (heap w !! v).

Definition set_heap (h : gmap ref Video) (w : World) : World :=
  {| document := document w; heap := h; state := state w;
     storage := storage w; console := console w; screen := screen w |}.
Definition set_state (s : State) (w : World) : World :=
  {| document := document w; heap := heap w; state := s;
     storage := storage w; console := console w; screen := screen w |}.
Definition set_storage (s : Storage) (w : World) : World :=
  {| document := document w; heap := heap w; state := state w;
     storage := s; console := console w; screen := screen w |}.
Definition set_document (d : Node) (w : World) : World :=
  {| document := d; heap := heap w; state := state w;
     storage := storage w; console := console w; screen := screen w |}.

Definition log (entry : LogEntry) (w : World) : World :=
  {| document := document w; heap := heap w; state := state w;
     storage := storage w; console := console w ++ [entry];
     screen := screen w |}.
Definition show (f : Feedback) (w : World) : World :=
  {| document := document w; heap := heap w; state := state w;
     storage := storage w; console := console w;
     screen := screen w ++ [f] |}.

(** [video.playbackRate = rate], for a rate the element accepts.  (An
    element accepts no value that is not a finite number.) *)
Definition write_playbackRate (video : ref) (rate : num) (w : World) : World :=
  let v := deref w video in
  set_heap (<[video := {| playbackRate := rate; readyState := readyState v;
                          currentTime := currentTime v; paused := paused v;
                          _superlearnerAttached := _superlearnerAttached v;
                          listeners := listeners v |}]> (heap w)) w.

(** [state.currentVideo = video] *)
Definition write_currentVideo (video : ref) (w : World) : World :=
  let s := state w in
  set_state {| currentVideo := Some video; keyListenerAdded := keyListenerAdded s;
               config := config s; customPresets := customPresets s;
               initialized := initialized s |} w.

(** *** Storage functions *)

Definition merge_config (base : Config num) (over : PartialConfig) : Config num := {|
  minRate := default (minRate base) (p_minRate over);
  maxRate := default (maxRate base) (p_maxRate over);
  fineIncrement := default (fineIncrement base) (p_fineIncrement over);
  coarseIncrement := default (coarseIncrement base) (p_coarseIncrement over);
  defaultRate := default (defaultRate base) (p_defaultRate over)
|}.

(** [state.config = { ...DEFAULT_CONFIG, ...data.udemy_config }] and
    [state.customPresets = data.udemy_presets], each read with its default. *)
Definition loadConfig (w : World) : World :=
  let s := state w in
  let cfg :=
    match udemy_config (storage w) with
    | Some stored => merge_config DEFAULT_CONFIG stored
    | None => DEFAULT_CONFIG
    end in
  set_state {| currentVideo := currentVideo s;
               keyListenerAdded := keyListenerAdded s;
               config := cfg;
               customPresets := default (customPresets s) (udemy_presets (storage w));
               initialized := initialized s |} w.

(** [chrome.storage.sync.set({ udemy_playback_rate: rate })] *)
Definition savePlaybackRate (rate : num) (w : World) : World :=
  let st := storage w in
  set_storage {| udemy_playback_rate := Some rate;
                 udemy_config := udemy_config st;
                 udemy_presets := udemy_presets st |} w.

(** The stored rate, [state.config.defaultRate] when none is stored. *)
Definition getStoredRate (w : World) : num :=
  default (defaultRate (config (state w))) (udemy_playback_rate (storage w)).

(** *** Video detection *)

(** [v.readyState > 0 || v.currentTime > 0 || !v.paused] *)
Definition is_active (w : World) (v : ref) : bool :=
  let e := deref w v in
  (0 <? readyState e)%nat || (of_Z 0 <? currentTime e) || negb (paused e).

(** The element found, as the reference the script holds it by. *)
Definition findVideoElement (w : World) : option ref :=
  option_map node_id
    match querySelector (document w) sel_vjs_tech with
    | Some video => Some video
    | None =>
    match querySelector (document w) sel_player_video with
    | Some video => Some video
    | None =>
    match querySelector (document w) sel_preload_auto with
    | Some video => Some video
    | None =>
        let videos := querySelectorAll (document w) sel_video in
        if (length videos =? 1)%nat then head videos
        else
          match List.find (fun v => is_active w (node_id v)) videos with
          | Some v => Some v
          | None => head videos
          end
    end end end.

(** *** Speed control *)

(** [node.nodeType === Node.TEXT_NODE || node.tagName === 'SPAN']; the
    [tagName] of an element of the page is its local name in upper case. *)
Definition takes_rate_text (node : Node) : bool :=
  match node with
  | CharacterData _ nodeType => (nodeType =? TEXT_NODE)%nat
  | Element _ localName _ _ _ => String.eqb localName "span"
  end.

(** The node whose [textContent] [updateRateDisplay] sets: in the host
    page's rate button, the first [span] below the button (the button itself
    when it has none) if that element has no child nodes, else its first
    child that is a text node or a [span]; none when the page has no rate
    button or the element has child nodes of other kinds only. *)
Definition rateDisplay_target (document : Node) : option Node :=
  match querySelector document sel_rate_button with
  | Some rateButton =>
      let textEl :=
        default rateButton (element_querySelector rateButton sel_span) in
      match node_children textEl with
      | [] => Some textEl
      | childNodes => List.find takes_rate_text childNodes
      end
  | None => None
  end.

(** Writes the formatted rate into the host page's rate button, when it
    finds a node to write it to. *)
Definition updateRateDisplay (rate : num) (w : World) : World :=
  match rateDisplay_target (document w) with
  | Some _ => show (RateDisplay rate) w
  | None => w
  end.

(** Shows the toast: a [div.superlearner-toast] appended to the body, which
    timers remove again. *)
Definition showSpeedToast (rate : num) (w : World) : World :=
  show (Toast rate) w.

(** [state.currentVideo || findVideoElement()] *)
Definition currentVideo_or_find (w : World) : option ref :=
  match currentVideo (state w) with
  | Some v => Some v
  | None => findVideoElement w
  end.

Definition setPlaybackRate (rate : RateArg num) (options : Options) (w : World)
    : World :=
  let config := config (state w) in
  match currentVideo_or_find w with
  | None => log No_video_found w
  | Some video =>
      let w := write_currentVideo video w in
      let rate :=
        targetRate config (playbackRate (deref w video)) rate options in
      let w := write_playbackRate video rate w in
      let w := savePlaybackRate rate w in
      let w := updateRateDisplay rate w in
      let w := showSpeedToast rate w in
      log (Speed_set_to rate) w
  end.

(** *** Keyboard shortcuts *)

(** The properties of a [keydown] event that the listener reads. *)
Record KeyboardEvent := {
  code : string;
  shiftKey : bool;
  ctrlKey : bool;
  altKey : bool;
  target_tagName : string;
  target_isContentEditable : bool
}.

(** [s.replace(pat, '')] for a string pattern: the first occurrence of [pat]
    is removed. *)
Fixpoint remove_first (pat s : string) : string :=
  if String.prefix pat s
  then String.substring (String.length pat) (String.length s - String.length pat) s
  else match s with
       | EmptyString => EmptyString
       | String c rest => String c (remove_first pat rest)
       end.

Definition digit_of_ascii (c : Ascii.ascii) : option Z :=
  let n := Ascii.nat_of_ascii c in
  if (48 <=? n)%nat && (n <=? 57)%nat then Some (Z.of_nat (n - 48)) else None.

Fixpoint parse_digits (acc : option Z) (s : string) : option Z :=
  match s with
  | EmptyString => acc
  | String c rest =>
      match digit_of_ascii c with
      | Some d => parse_digits (Some (10 * default 0%Z acc + d)%Z) rest
      | None => acc
      end
  end.

(** [parseInt] on the remainder of a key code: the longest prefix of decimal
    digits, [None] (NaN) when there is none.  Leading white space, signs and
    the [0x] prefix, which no key code has, are not interpreted. *)
Definition parseInt (s : string) : option Z := parse_digits None s.

Definition speedMap : list num :=
  [hundredths 50; hundredths 75; hundredths 100; hundredths 125; hundredths 150;
   hundredths 175; hundredths 200; hundredths 250; hundredths 300].

(** The calls of [setPlaybackRate] that the [keydown] listener makes for an
    event, in order.  The listener is a sequence of independent [if]
    statements; each one that fires also calls [preventDefault] and
    [stopPropagation] on the event. *)
Definition keydown_calls (event : KeyboardEvent) : list (RateArg num * Options) :=
  let tag := target_tagName event in
  if String.eqb tag "INPUT" || String.eqb tag "TEXTAREA"
     || target_isContentEditable event
  then []
  else
    (if String.eqb (code event) "ArrowRight" && shiftKey event
        && negb (ctrlKey event) && negb (altKey event)
     then [(increase, {| coarse := false; wrap := true |})] else [])
    ++
    (if String.eqb (code event) "ArrowLeft" && shiftKey event
        && negb (ctrlKey event) && negb (altKey event)
     then [(decrease, {| coarse := false; wrap := true |})] else [])
    ++
    (if String.eqb (code event) "ArrowRight" && shiftKey event && ctrlKey event
     then [(increase, {| coarse := true; wrap := false |})] else [])
    ++
    (if String.eqb (code event) "ArrowLeft" && shiftKey event && ctrlKey event
     then [(decrease, {| coarse := true; wrap := false |})] else [])
    ++
    (if shiftKey event && String.prefix "Digit" (code event)
        && negb (ctrlKey event) && negb (altKey event)
     then
       match parseInt (remove_first "Digit" (code event)) with
       | Some n =>
           if (1 <=? n)%Z && (n <=? 9)%Z then
             match speedMap !! Z.to_nat (n - 1) with
             | Some speed =>
                 if truthy speed then [(explicit speed, no_options)] else []
             | None => []
             end
           else []
       | None => []
       end
     else []).

(** The [keydown] listener installed by [addKeyboardListeners]. *)
Definition keydown (event : KeyboardEvent) (w : World) : World :=
  fold_left (fun w call => setPlaybackRate (fst call) (snd call) w)
            (keydown_calls event) w.

Definition addKeyboardListeners (w : World) : World :=
  let s := state w in
  if keyListenerAdded s then w
  else
    log Keyboard_shortcuts_active
      (set_state {| currentVideo := currentVideo s; keyListenerAdded := true;
                    config := config s; customPresets := customPresets s;
                    initialized := initialized s |} w).

(** *** Video event handlers *)

(** The closure [applyStoredRate] of [attachVideoListeners(video)]. *)
Definition applyStoredRate (video : ref) (w : World) : World :=
  let rate := getStoredRate w in
  let w :=
    if playbackRate (deref w video) !== rate
    then log (Applied_stored_rate rate) (write_playbackRate video rate w)
    else w in
  updateRateDisplay rate w.

(** The [ratechange] listener: it reads [video.playbackRate] and
    [state.currentVideo?.playbackRate], and the body of its [if] is a
    comment. *)
Definition on_ratechange (video : ref) (w : World) : World :=
  let currentRate := playbackRate (deref w video) in
  if (currentRate !== of_Z 1)
     || match currentVideo (state w) with
        | Some cv => playbackRate (deref w cv) === of_Z 1
        | None => false
        end
  then w
  else w.

Definition run_listener (l : Listener) (video : ref) (w : World) : World :=
  match l with
  | applyStoredRate_listener => applyStoredRate video w
  | ratechange_listener => on_ratechange video w
  end.

(** An event of type [type] fires on [video]: its listeners for that type
    run in registration order. *)
Definition dispatchEvent (video : ref) (type : string) (w : World) : World :=
  fold_left
    (fun w entry =>
       if String.eqb (fst entry) type then run_listener (snd entry) video w else w)
    (listeners (deref w video)) w.

Definition attachVideoListeners (video : ref) (w : World) : World :=
  let v := deref w video in
  if _superlearnerAttached v then w
  else
    let w :=
      set_heap
        (<[video := {| playbackRate := playbackRate v; readyState := readyState v;
                       currentTime := currentTime v; paused := paused v;
                       _superlearnerAttached := true;
                       listeners := listeners v ++
                         [("loadedmetadata", applyStoredRate_listener);
                          ("loadeddata", applyStoredRate_listener);
                          ("canplay", applyStoredRate_listener);
                          ("play", applyStoredRate_listener);
                          ("playing", applyStoredRate_listener);
                          ("ratechange", ratechange_listener)] |}]> (heap w)) w in
    if (1 <=? readyState v)%nat then applyStoredRate video w else w.

(** *** Initialization *)

(** The body shared by the mutation observer's debounced callback and the
    polling timer; [entry] is the line each of them logs. *)
Definition rescan (entry : LogEntry) (w : World) : World :=
  match findVideoElement w with
  | Some video =>
      if match currentVideo (state w) with
         | Some cv => negb (cv =? video)%nat
         | None => true
         end
      then log entry (attachVideoListeners video (write_currentVideo video w))
      else w
  | None => w
  end.

Definition initialize (w : World) : World :=
  if initialized (state w) then w
  else
    let w := loadConfig w in
    let w := addKeyboardListeners w in
    let w :=
      match findVideoElement w with
      | Some video =>
          log Video_found_immediately
            (attachVideoListeners video (write_currentVideo video w))
      | None => w
      end in
    let s := state w in
    log Initialized
      (set_state {| currentVideo := currentVideo s;
                    keyListenerAdded := keyListenerAdded s;
                    config := config s; customPresets := customPresets s;
                    initialized := true |} w).

(** *** Message handling *)

(** The messages of [chrome.runtime.onMessage] and the responses sent
    back. *)
Inductive Message :=
  | SET_RATE (rate : num)
  | GET_RATE
  | CONFIG_UPDATED.

Inductive Response :=
  | success
  | current_rate (rate : num).

Definition onMessage (message : Message) (w : World) : World * Response :=
  match message with
  | SET_RATE rate => (setPlaybackRate (explicit rate) no_options w, success)
  | GET_RATE =>
      (w, current_rate
            match currentVideo_or_find w with
            | Some v =>
                let r := playbackRate (deref w v) in
                if truthy r then r else of_Z 1
            | None => of_Z 1
            end)
  | CONFIG_UPDATED => (loadConfig w, success)
  end.

End Page.

Arguments Video num : clear implicits.
Arguments State num : clear implicits.
Arguments PartialConfig num : clear implicits.
Arguments Storage num : clear implicits.
Arguments LogEntry num : clear implicits.
Arguments Feedback num : clear implicits.
Arguments World num : clear implicits.
Arguments Message num : clear implicits.
Arguments Response num : clear implicits.

(** ** The popup script *)

Fixpoint includes (s pat : string) : bool :=
  String.prefix pat s
  || match s with
     | EmptyString => false
     | String _ rest => includes rest pat
     end.

Section Popup.
Context {num : Type} `{JsNumber num}.
Local Open Scope js_scope.

(** The popup's module-level variables and what its speed display shows. *)
Record Popup := {
  currentConfig : Config num;
  currentRate : num;
  currentSpeed : num;   (* the rate formatted into [elements.currentSpeed] *)
  speedSlider : num     (* the value assigned to [elements.speedSlider] *)
}.

(** The popup together with what it talks to: the active tab of the current
    window and [chrome.storage.sync], which the tab's content script shares.
    [tab_url] is [None] when there is no active tab or its URL is not
    visible; [content_loaded] tells whether a content script listens in the
    tab (otherwise [sendMessage] fails and the failure is ignored). *)
Record Browser := {
  popup : Popup;
  tab_url : option string;
  content_loaded : bool;
  world : World num
}.

Definition set_popup (p : Popup) (b : Browser) : Browser :=
  {| popup := p; tab_url := tab_url b; content_loaded := content_loaded b;
     world := world b |}.
Definition set_world (w : World num) (b : Browser) : Browser :=
  {| popup := popup b; tab_url := tab_url b; content_loaded := content_loaded b;
     world := w |}.

Definition updateSpeedDisplay (rate : num) (b : Browser) : Browser :=
  set_popup {| currentConfig := currentConfig (popup b); currentRate := rate;
               currentSpeed := rate; speedSlider := rate |} b.

(** [chrome.tabs.sendMessage] to the active tab, guarded as in [setRate] and
    [saveConfig] by [tab?.url?.includes('udemy.com')]. *)
Definition sendToTab (message : Message num) (b : Browser) : Browser :=
  match tab_url b with
  | Some url =>
      if includes url "udemy.com" && content_loaded b
      then set_world (fst (onMessage message (world b))) b
      else b
  | None => b
  end.

Definition setRate (rate : num) (b : Browser) : Browser :=
  let cfg := currentConfig (popup b) in
  let rate := Math_max (minRate cfg) (Math_min (maxRate cfg) rate) in
  let rate := round2 rate in
  let b := set_world (savePlaybackRate rate (world b)) b in
  let b := updateSpeedDisplay rate b in
  sendToTab (SET_RATE rate) b.

Definition popup_loadConfig (b : Browser) : Browser :=
  let st := storage (world b) in
  set_popup {| currentConfig :=
                 match udemy_config st with
                 | Some stored => merge_config DEFAULT_CONFIG stored
                 | None => DEFAULT_CONFIG
                 end;
               currentRate := default (of_Z 1) (udemy_playback_rate st);
               currentSpeed := currentSpeed (popup b);
               speedSlider := speedSlider (popup b) |} b.

Definition saveConfig (b : Browser) : Browser :=
  let cfg := currentConfig (popup b) in
  let st := storage (world b) in
  let stored := {| p_minRate := Some (minRate cfg);
                   p_maxRate := Some (maxRate cfg);
                   p_fineIncrement := Some (fineIncrement cfg);
                   p_coarseIncrement := Some (coarseIncrement cfg);
                   p_defaultRate := Some (defaultRate cfg) |} in
  let b := set_world
             (set_storage {| udemy_playback_rate := udemy_playback_rate st;
                             udemy_config := Some stored;
                             udemy_presets := udemy_presets st |} (world b)) b in
  sendToTab CONFIG_UPDATED b.

(** [init]: load what is stored and show the stored rate. *)
Definition init (b : Browser) : Browser :=
  let b := popup_loadConfig b in
  updateSpeedDisplay (currentRate (popup b)) b.

Definition set_currentConfig (cfg : Config num) (b : Browser) : Browser :=
  set_popup {| currentConfig := cfg; currentRate := currentRate (popup b);
               currentSpeed := currentSpeed (popup b);
               speedSlider := speedSlider (popup b) |} b.

(** The user actions that the listeners of [setupEventListeners] handle;
    numeric payloads are the [parseFloat] of the control's value. *)
Inductive PopupEvent :=
  | click_decreaseBtn
  | click_increaseBtn
  | input_speedSlider (value : num)
  | change_speedSlider (value : num)
  | click_preset (speed : num)
  | change_fineIncrement (value : num)
  | change_coarseIncrement (value : num)
  | change_minRate (value : num)
  | change_maxRate (value : num)
  | keydown_ArrowRight (ctrl : bool)
  | keydown_ArrowLeft (ctrl : bool).

Definition popup_event (e : PopupEvent) (b : Browser) : Browser :=
  let p := popup b in
  let cfg := currentConfig p in
  match e with
  | click_decreaseBtn => setRate (currentRate p - fineIncrement cfg) b
  | click_increaseBtn => setRate (currentRate p + fineIncrement cfg) b
  | input_speedSlider value => updateSpeedDisplay value b
  | change_speedSlider value => setRate value b
  | click_preset speed => setRate speed b
  | change_fineIncrement value =>
      saveConfig (set_currentConfig
        {| minRate := minRate cfg; maxRate := maxRate cfg;
           fineIncrement := value; coarseIncrement := coarseIncrement cfg;
           defaultRate := defaultRate cfg |} b)
  | change_coarseIncrement value =>
      saveConfig (set_currentConfig
        {| minRate := minRate cfg; maxRate := maxRate cfg;
           fineIncrement := fineIncrement cfg; coarseIncrement := value;
           defaultRate := defaultRate cfg |} b)
  | change_minRate value =>
      saveConfig (set_currentConfig
        {| minRate := value; maxRate := maxRate cfg;
           fineIncrement := fineIncrement cfg;
           coarseIncrement := coarseIncrement cfg;
           defaultRate := defaultRate cfg |} b)
  | change_maxRate value =>
      saveConfig (set_currentConfig
        {| minRate := minRate cfg; maxRate := value;
           fineIncrement := fineIncrement cfg;
           coarseIncrement := coarseIncrement cfg;
           defaultRate := defaultRate cfg |} b)
  | keydown_ArrowRight ctrl =>
      let increment := if ctrl then coarseIncrement cfg else fineIncrement cfg in
      setRate (currentRate p + increment) b
  | keydown_ArrowLeft ctrl =>
      let increment := if ctrl then coarseIncrement cfg else fineIncrement cfg in
      setRate (currentRate p - increment) b
  end.

End Popup.

Arguments Popup num : clear implicits.
Arguments Browser num : clear implicits.
Arguments PopupEvent num : clear implicits.

(** ** Sample worlds *)

Section Samples.
Context {num : Type} `{JsNumber num}.

Definition video_el (id : ref) (classes : list string)
    (attrs : list (string * string)) : Node :=
  Element id "video" classes attrs [].

(** A lesson page: the player region holds one Video.js element. *)
Definition lesson_document : Node :=
  Element 0 "html" [] []
    [Element 1 "body" [] []
       [Element 2 "div" [] [("data-purpose", "video-player")]
          [video_el 3 ["vjs-tech"] [("preload", "auto")]];
        Element 4 "button" [] [("data-purpose", "playback-rate-button")]
          [Element 8 "span" [] [] [CharacterData 9 TEXT_NODE]]]].

(** A page with no media element. *)
Definition empty_document : Node :=
  Element 0 "html" [] [] [Element 1 "body" [] [] []].

Definition playing_at (rate : num) : Video num :=
  {| playbackRate := rate; readyState := 4; currentTime := of_Z 12;
     paused := false; _superlearnerAttached := false; listeners := [] |}.

Definition world_of (doc : Node) (h : gmap ref (Video num)) (s : State num)
    : World num :=
  {| document := doc; heap := h; state := s; storage := empty_storage;
     console := []; screen := [] |}.

Definition with_config (cfg : Config num) (w : World num) : World num :=
  let s := state w in
  set_state {| currentVideo := currentVideo s;
               keyListenerAdded := keyListenerAdded s; config := cfg;
               customPresets := customPresets s;
               initialized := initialized s |} w.

(** The lesson page with its video playing at [rate], before the script has
    seen it. *)
Definition lesson_world (rate : num) : World num :=
  world_of lesson_document {[ 3%nat := playing_at rate ]} initial_state.

Definition key (c : string) (shift ctrl alt : bool) : KeyboardEvent :=
  {| code := c; shiftKey := shift; ctrlKey := ctrl; altKey := alt;
     target_tagName := "BODY"; target_isContentEditable := false |}.

(** The popup opened over a tab showing [w], with the default
    configuration loaded and rate 1 displayed. *)
Definition popup_over (w : World num) : Browser num :=
  {| popup := {| currentConfig := DEFAULT_CONFIG; currentRate := of_Z 1;
                 currentSpeed := of_Z 1; speedSlider := of_Z 1 |};
     tab_url := Some "https://www.udemy.com/course/rocq/learn/lecture/1";
     content_loaded := true;
     world := w |}.

(** The default configuration with other speed bounds. *)
Definition config_with_bounds (lo hi : num) : Config num :=
  {| minRate := lo; maxRate := hi;
     fineIncrement := fineIncrement DEFAULT_CONFIG;
     coarseIncrement := coarseIncrement DEFAULT_CONFIG;
     defaultRate := defaultRate DEFAULT_CONFIG |}.

(** The script still holds video 3 although the page has since replaced its
    content with one that has no video. *)
Definition stale_world (rate : num) : World num :=
  world_of empty_document {[ 3%nat := playing_at rate ]}
    {| currentVideo := Some 3%nat; keyListenerAdded := true;
       config := DEFAULT_CONFIG; customPresets := customPresets initial_state;
       initialized := true |}.

(** A page whose first video is an unmarked one that is playing, followed by
    an idle Video.js element. *)
Definition two_video_document : Node :=
  Element 0 "html" [] []
    [Element 1 "body" [] []
       [video_el 2 [] [];
        Element 5 "div" [] [] [video_el 3 ["vjs-tech"] []]]].

Definition two_video_world : World num :=
  world_of two_video_document
    {[ 2%nat := playing_at (of_Z 1); 3%nat := fresh_video ]} initial_state.

(** A page with two videos that carry no marker class: the first directly
    in the body, the second in a [div] with [wrapper_attrs], with [attrs] of
    its own. *)
Definition two_plain_videos (wrapper_attrs attrs : list (string * string))
    : Node :=
  Element 0 "html" [] []
    [Element 1 "body" [] []
       [video_el 2 [] [];
        Element 5 "div" [] wrapper_attrs [video_el 3 [] attrs]]].

(** The lesson page with a rate button that shows an icon only. *)
Definition icon_button_document : Node :=
  Element 0 "html" [] []
    [Element 1 "body" [] []
       [Element 2 "div" [] [("data-purpose", "video-player")]
          [video_el 3 ["vjs-tech"] [("preload", "auto")]];
        Element 4 "button" [] [("data-purpose", "playback-rate-button")]
          [Element 8 "svg" [] [] []]]].

(** Shift+ArrowRight and Shift+ArrowLeft pressed on the page body. *)
Definition fine_increase_key : KeyboardEvent := key "ArrowRight" true false false.
Definition fine_decrease_key : KeyboardEvent := key "ArrowLeft" true false false.

(** A lesson page freshly loaded while the store holds [rate]: the video
    element is new and the script has not run yet. *)
Definition reloaded_world (rate : num) : World num :=
  savePlaybackRate rate (world_of lesson_document ∅ initial_state).

Definition fine_options : Options := {| coarse := false; wrap := true |}.
Definition coarse_options : Options := {| coarse := true; wrap := false |}.

End Samples.

(** ** Vocabulary of the properties *)

(** The step a directional request takes. *)
Definition increment_of {num} (config : Config num) (options : Options) : num :=
  if coarse options then coarseIncrement config else fineIncrement config.

(** [Math.max(lo, Math.min(hi, x))], the clamp as [setRate] writes it. *)
Definition max_min {num} `{JsNumber num} (lo hi x : num) : num :=
  Math_max lo (Math_min hi x).

(** [clamp(x, lo, hi)] in the words of the specification: [lo] below the
    range, [hi] above it, [x] itself inside. *)
Definition clamp (x lo hi : Q) : Q :=
  if Qltb x lo then lo else if Qltb hi x then hi else x.

(** [x] is a whole number of hundredths. *)
Definition two_decimals (x : Q) : Prop :=
  exists k : Z, (x == inject_Z k / 100)%Q.

Definition within_bounds (cfg : Config Q) (r : Q) : Prop :=
  (minRate cfg <= r /\ r <= maxRate cfg)%Q.

(** Bounds that are ordered whole numbers of hundredths. *)
Definition bounds_ok (cfg : Config Q) : Prop :=
  two_decimals (minRate cfg) /\ two_decimals (maxRate cfg)
  /\ (minRate cfg <= maxRate cfg)%Q.

Definition persisted_within_bounds (w : World Q) : Prop :=
  match udemy_playback_rate (storage w) with
  | Some r => within_bounds (config (state w)) r
  | None => True
  end.

Definition is_directional {num} (rate : RateArg num) : Prop :=
  match rate with
  | explicit _ => False
  | _ => True
  end.

(** The nodes of a tree in document order. *)
Fixpoint nodes (n : Node) : list Node :=
  match n with
  | Element _ _ _ _ kids => n :: concat (map nodes kids)
  | CharacterData _ _ => [n]
  end.

(** Induction on a document tree, with the property available for every
    child. *)
Fixpoint Node_tree_ind (P : Node -> Prop)
    (step : forall id name cls attrs kids,
        Forall P kids -> P (Element id name cls attrs kids))
    (leaf : forall id nodeType, P (CharacterData id nodeType))
    (n : Node) : P n :=
  match n with
  | Element id name cls attrs kids =>
      step id name cls attrs kids
        ((fix all (l : list Node) : Forall P l :=
            match l with
            | [] => @List.Forall_nil _ P
            | k :: l' =>
                @List.Forall_cons _ P k l' (Node_tree_ind P step leaf k) (all l')
            end) kids)
  | CharacterData id nodeType => leaf id nodeType
  end.

(** The compound selector that the selected element itself must match. *)
Definition subject (sel : Selector) : Compound :=
  match sel with
  | Sel c => c
  | Desc _ c => c
  end.

(** A [video] element carrying the Video.js class. *)
Definition marked_video (n : Node) : bool :=
  String.eqb "video" (node_name n) && has_class "vjs-tech" n.

(** A [video] element, whatever its classes and attributes. *)
Definition is_video_node (n : Node) : bool := String.eqb "video" (node_name n).

(** A [video] element with [preload="auto"]. *)
Definition preload_video (n : Node) : bool :=
  is_video_node n && has_attr ("preload", "auto") n.

(** The left side of ['[data-purpose="video-player"] video']: the player
    region. *)
Definition player_region : Compound :=
  {| sel_tag := None; sel_class := None;
     sel_attr := Some ("data-purpose", "video-player") |}.

(** The nodes that have an ancestor matching [a], in document order: all
    that lies below the outermost elements matching [a]. *)
Fixpoint inside_nodes (a : Compound) (n : Node) : list Node :=
  match n with
  | Element _ _ _ _ kids =>
      if matches a n then concat (map nodes kids)
      else concat (map (inside_nodes a) kids)
  | CharacterData _ _ => []
  end.

(** The host page's rate button has a place for the rate label.  Take the
    first element in document order with
    [data-purpose="playback-rate-button"], and in it the first [span] below
    the button, or the button itself when it has none: that element has no
    child node at all, or one of its child nodes is a text node or a
    [span]. *)
Definition rate_button_takes_label (document : Node) : Prop :=
  exists rateButton,
    List.find (matches (subject sel_rate_button)) (nodes document)
    = Some rateButton
    /\ let textEl :=
         default rateButton
           (List.find (matches sel_span) (tail (nodes rateButton))) in
       node_children textEl = []
       \/ exists child,
            In child (node_children textEl)
            /\ ((exists id, child = CharacterData id TEXT_NODE)
                \/ (is_element child = true /\ node_name child = "span")).

(** [x] is a finite number, neither NaN nor an infinity: for exactly these
    [x - x] is 0.  The [playbackRate] setter of a media element refuses
    every other value. *)
Definition is_finite {num} `{JsNumber num} (x : num) : bool :=
  ((x - x) === of_Z 0)%js.

(** The position of a binary64 value in the order of the reals: sign class,
    then exponent and mantissa, both negated for negative values; NaN has
    none. *)
Definition rank (f : spec_float) : option (Z * Z * Z) :=
  match f with
  | S754_nan => None
  | S754_infinity true => Some (-2, 0, 0)%Z
  | S754_infinity false => Some (2, 0, 0)%Z
  | S754_zero _ => Some (0, 0, 0)%Z
  | S754_finite true m e => Some (-1, - e, Z.neg m)%Z
  | S754_finite false m e => Some (1, e, Z.pos m)%Z
  end.

Definition lex (x y : Z * Z * Z) : comparison :=
  match (x.1.1 ?= y.1.1)%Z with
  | Eq => match (x.1.2 ?= y.1.2)%Z with
          | Eq => (x.2 ?= y.2)%Z
          | c => c
          end
  | c => c
  end.

Definition lex_lt (x y : Z * Z * Z) : Prop :=
  (x.1.1 < y.1.1
   \/ x.1.1 = y.1.1 /\ (x.1.2 < y.1.2 \/ x.1.2 = y.1.2 /\ x.2 < y.2))%Z.

(** Exposes the rational operations behind the interface. *)
Ltac unfold_js :=
  cbv [of_Z js_add js_sub js_mul js_div js_lt js_eq Math_round Math_max
       Math_min truthy Q_JsNumber hundredths] in *.

From Stdlib Require Import Ascii DecimalString.

(** The rates [0.50, 0.51, ..., 3.00] of the default range, as numbers of
    hundredths. *)
Definition default_grid : list Z := map Z.of_nat (seq 50 251).

(** What the keyboard steps do to a rate of [k] hundredths under the default
    configuration, in integer arithmetic: fine steps of 5 that wrap around,
    coarse steps of 25 that stop at the bounds. *)
Definition fine_up (k : Z) : Z := if (k + 5 <=? 300)%Z then (k + 5)%Z else 50%Z.
Definition fine_down (k : Z) : Z := if (50 <=? k - 5)%Z then (k - 5)%Z else 300%Z.
Definition coarse_up (k : Z) : Z := Z.min (k + 25) 300.
Definition coarse_down (k : Z) : Z := Z.max (k - 25) 50.

(** The four keyboard steps agree with the integer arithmetic at [k]
    hundredths, in binary64. *)
Definition steps_exact_at (k : Z) : Prop :=
  directionalRate DEFAULT_CONFIG (hundredths k : float) true fine_options
    = hundredths (fine_up k)
  /\ directionalRate DEFAULT_CONFIG (hundredths k : float) false fine_options
     = hundredths (fine_down k)
  /\ directionalRate DEFAULT_CONFIG (hundredths k : float) true coarse_options
     = hundredths (coarse_up k)
  /\ directionalRate DEFAULT_CONFIG (hundredths k : float) false coarse_options
     = hundredths (coarse_down k).

(** The directional requests, as the pairs the keyboard passes. *)
Definition step_of (up : bool) (options : Options) (k : Z) : Z :=
  match up, coarse options with
  | true, false => fine_up k
  | false, false => fine_down k
  | true, true => coarse_up k
  | false, true => coarse_down k
  end.

(** The listeners that [attachVideoListeners] registers, in order. *)
Definition video_listeners : list (string * Listener) :=
  [("loadedmetadata", applyStoredRate_listener);
   ("loadeddata", applyStoredRate_listener);
   ("canplay", applyStoredRate_listener);
   ("play", applyStoredRate_listener);
   ("playing", applyStoredRate_listener);
   ("ratechange", ratechange_listener)].

(** The event types on which the stored rate is reapplied. *)
Definition readiness_events : list string :=
  ["loadedmetadata"; "loadeddata"; "canplay"; "play"; "playing"].

(** The popup events that change a setting, and the ones that commit a
    rate. *)
Definition is_settings_event {num} (e : PopupEvent num) : bool :=
  match e with
  | change_fineIncrement _ | change_coarseIncrement _
  | change_minRate _ | change_maxRate _ => true
  | _ => false
  end.

Definition is_rate_commit {num} (e : PopupEvent num) : bool :=
  match e with
  | click_decreaseBtn | click_increaseBtn | change_speedSlider _
  | click_preset _ | keydown_ArrowRight _ | keydown_ArrowLeft _ => true
  | _ => false
  end.

(** The configuration a settings event asks for. *)
Definition config_after {num} (e : PopupEvent num) (cfg : Config num)
    : Config num :=
  {| minRate := match e with change_minRate v => v | _ => minRate cfg end;
     maxRate := match e with change_maxRate v => v | _ => maxRate cfg end;
     fineIncrement :=
       match e with change_fineIncrement v => v | _ => fineIncrement cfg end;
     coarseIncrement :=
       match e with change_coarseIncrement v => v | _ => coarseIncrement cfg end;
     defaultRate := defaultRate cfg |}.

(** Whether a message from the popup reaches a content script: the active
    tab shows a URL that includes ['udemy.com'] and a content script
    listens there. *)
Definition tab_reachable {num} (b : Browser num) : bool :=
  match tab_url b with
  | Some url => includes url "udemy.com" && content_loaded b
  | None => false
  end.

(** The part of the world that belongs to the page, as opposed to the
    store. *)
Definition page_of {num} (w : World num) :=
  (document w, heap w, state w, console w, screen w).

(** The rate the popup's [setRate] stores for a request. *)
Definition committed_rate {num} `{JsNumber num} (cfg : Config num) (rate : num)
    : num :=
  round2 (max_min (minRate cfg) (maxRate cfg) rate).

(** The rate a popup event asks [setRate] for. *)
Definition requested_rate {num} `{JsNumber num} (e : PopupEvent num)
    (p : Popup num) : num :=
  let cfg := currentConfig p in
  match e with
  | click_decreaseBtn => (currentRate p - fineIncrement cfg)%js
  | click_increaseBtn => (currentRate p + fineIncrement cfg)%js
  | change_speedSlider value => value
  | click_preset speed => speed
  | keydown_ArrowRight ctrl =>
      (currentRate p + (if ctrl then coarseIncrement cfg else fineIncrement cfg))%js
  | keydown_ArrowLeft ctrl =>
      (currentRate p - (if ctrl then coarseIncrement cfg else fineIncrement cfg))%js
  | _ => currentRate p
  end.

(** The popup's steps from [k] hundredths under the default configuration
    agree with integer arithmetic that stops at the bounds, in binary64. *)
Definition popup_steps_exact_at (k : Z) : Prop :=
  committed_rate DEFAULT_CONFIG (hundredths k + hundredths 5 : float)%js
    = hundredths (Z.min (k + 5) 300)
  /\ committed_rate DEFAULT_CONFIG (hundredths k - hundredths 5 : float)%js
     = hundredths (Z.max (k - 5) 50)
  /\ committed_rate DEFAULT_CONFIG (hundredths k + hundredths 25 : float)%js
     = hundredths (Z.min (k + 25) 300)
  /\ committed_rate DEFAULT_CONFIG (hundredths k - hundredths 25 : float)%js
     = hundredths (Z.max (k - 25) 50).

(** *** Formatting a rate (binary64)

    [formatRate] depends on the exact binary value of its argument, so it is
    given for binary64 only. *)

(** [a % b]: the remainder of the truncating division, exact, with the sign
    of [a]; NaN when [a] is infinite or [b] is zero. *)
Definition float_rem (x y : float) : float :=
  match Prim2SF x, Prim2SF y with
  | S754_nan, _ | _, S754_nan => PrimFloat.nan
  | S754_infinity _, _ => PrimFloat.nan
  | _, S754_zero _ => PrimFloat.nan
  | _, S754_infinity _ => x
  | S754_zero _, _ => x
  | S754_finite s m1 e1, S754_finite _ m2 e2 =>
      let e := Z.min e1 e2 in
      let r := ((Z.pos m1 * 2 ^ (e1 - e)) mod (Z.pos m2 * 2 ^ (e2 - e)))%Z in
      match r with
      | Z.pos p => SF2Prim (S754_finite s p e)
      | _ => SF2Prim (S754_zero s)
      end
  end.

Definition decimal_of_Z (n : Z) : string :=
  NilZero.string_of_uint (N.to_uint (Z.to_N n)).

Fixpoint zeros (k : nat) : string :=
  match k with
  | O => EmptyString
  | S k => String "0"%char (zeros k)
  end.

(** The digits of [n] with a point before the last [f] of them, padded with
    zeros on the left to at least one digit before the point. *)
Definition fixed_digits (n : Z) (f : nat) : string :=
  let m := decimal_of_Z n in
  match f with
  | O => m
  | _ =>
      let m := if (String.length m <=? f)%nat
               then String.append (zeros (f + 1 - String.length m)) m else m in
      let k := String.length m in
      String.append (String.substring 0 (k - f) m)
        (String "."%char (String.substring (k - f) f m))
  end.

(** [x.toFixed(f)] as ECMAScript defines it: the integer [n] for which
    [n / 10^f] is closest to [|x|], the larger one of two, printed with [f]
    fraction digits.  From 10^21 on the result is the exponential notation
    of [String(x)], which is not modelled ([None]). *)
Definition toFixed (x : float) (f : nat) : option string :=
  match Prim2SF x with
  | S754_nan => Some "NaN"%string
  | S754_infinity s => Some (if s then "-Infinity" else "Infinity")%string
  | S754_zero _ => Some (fixed_digits 0 f)
  | S754_finite s m e =>
      let num := (Z.pos m * 2 ^ Z.max e 0)%Z in
      let den := (2 ^ Z.max (- e) 0)%Z in
      if (10 ^ 21 * den <=? num)%Z then None
      else
        let n := ((2 * num * 10 ^ Z.of_nat f + den) / (2 * den))%Z in
        Some (String.append (if s then "-" else "") (fixed_digits n f))
  end.

Definition formatRate (rate : float) : option string :=
  let rounded := round2 rate in
  if PrimFloat.eqb (float_rem rounded (hundredths 10)) PrimFloat.zero
  then toFixed rounded 1
  else toFixed rounded 2.

(** [`${formatRate(rate)}x`], the text of the toast and of the rate
    button. *)
Definition rate_text (rate : float) : option string :=
  option_map (fun s => String.append s "x") (formatRate rate).

(** The message [log] prints for an entry. *)
Definition log_text (entry : LogEntry float) : option string :=
  match entry with
  | No_video_found => Some "No video found"%string
  | Speed_set_to rate =>
      option_map (String.append "Speed set to ") (rate_text rate)
  | Applied_stored_rate rate =>
      option_map (String.append "Applied stored rate: ") (rate_text rate)
  | Keyboard_shortcuts_active => Some "Keyboard shortcuts active"%string
  | Video_found_immediately => Some "Video found immediately"%string
  | New_video_detected => Some "New video detected"%string
  | Video_found_via_polling => Some "Video found via polling"%string
  | Initialized => Some "Initialized - Find your perfect pace!"%string
  end.

(** The text shown for a piece of on-screen feedback. *)
Definition feedback_rate_text (f : Feedback float) : option string :=
  match f with
  | RateDisplay rate => rate_text rate
  | Toast rate => rate_text rate
  end.

(** How [formatRate] prints a rate of [k] hundredths of the default range:
    with two decimals, except 0.8 and 1.6. *)
Definition grid_format (k : Z) : string :=
  if (k =? 80)%Z || (k =? 160)%Z then fixed_digits (k / 10) 1
  else fixed_digits k 2.

(** A rate of the default range that is a whole number of hundredths, in
    binary64. *)
Definition on_grid (r : float) : Prop :=
  exists k : Z, (50 <= k <= 300)%Z /\ r = hundredths k.

(** Under the default configuration the script holds a video whose rate is
    on the grid, and so is the persisted rate if there is one. *)
Definition grid_world (w : World float) : Prop :=
  config (state w) = DEFAULT_CONFIG
  /\ (exists video, currentVideo (state w) = Some video
                    /\ on_grid (playbackRate (deref w video)))
  /\ match udemy_playback_rate (storage w) with
     | Some r => on_grid r
     | None => True
     end.

(** ** The two number models are ordered *)

Section ExactOrder.
Local Open Scope Q_scope.

Lemma Qltb_lt (a b : Q) : Qltb a b = true <-> a < b.
Proof.
  unfold Qltb. rewrite negb_true_iff, <- not_true_iff_false, Qle_bool_iff.
  split; [apply Qnot_le_lt | apply Qlt_not_le].
Qed.

Lemma Qltb_ge (a b : Q) : Qltb a b = false <-> b <= a.
Proof.
  unfold Qltb. rewrite negb_false_iff. apply Qle_bool_iff.
Qed.

Lemma Qltb_irrefl (a : Q) : Qltb a a = false.
Proof. apply Qltb_ge, Qle_refl. Qed.

Lemma Qltb_asym (a b : Q) : Qltb a b = true -> Qltb b a = false.
Proof. intros Hab. apply Qltb_lt in Hab. apply Qltb_ge, Qlt_le_weak, Hab. Qed.

Lemma Qltb_le_trans (a b c : Q) :
  Qltb a b = true -> Qle_bool b c = true -> Qltb a c = true.
Proof.
  intros Hab Hbc. apply Qltb_lt in Hab. apply Qle_bool_iff in Hbc.
  apply Qltb_lt. eapply Qlt_le_trans; eassumption.
Qed.

Lemma Qle_bool_not_ltb (a b : Q) : Qle_bool a b = true -> Qltb b a = false.
Proof. intros Hab. apply Qle_bool_iff in Hab. apply Qltb_ge, Hab. Qed.

End ExactOrder.

#[export] Instance Q_JsOrder : JsOrder Q := {|
  js_le := Qle_bool;
  js_lt_irrefl := Qltb_irrefl;
  js_lt_asym := Qltb_asym;
  js_lt_le_trans := Qltb_le_trans;
  js_le_not_lt := Qle_bool_not_ltb
|}.

Section Binary64Order.

Lemma SFcompare_rank (a b : spec_float) :
  SFcompare a b =
    match rank a, rank b with
    | Some x, Some y => Some (lex x y)
    | _, _ => None
    end.
Proof.
  destruct a as [[]|[]| |[] m1 e1], b as [[]|[]| |[] m2 e2]; try reflexivity;
    cbn; unfold lex; cbn; f_equal.
  rewrite Z.compare_opp, (Z.compare_antisym e1 e2).
  destruct (e1 ?= e2)%Z; reflexivity.
Qed.

Lemma lex_Lt (x y : Z * Z * Z) : lex x y = Lt <-> lex_lt x y.
Proof.
  unfold lex, lex_lt.
  destruct (Z.compare_spec x.1.1 y.1.1), (Z.compare_spec x.1.2 y.1.2),
    (Z.compare_spec x.2 y.2);
    split; intros; try discriminate; try reflexivity; try lia.
Qed.

Lemma lex_Gt (x y : Z * Z * Z) : lex x y = Gt <-> lex_lt y x.
Proof.
  unfold lex, lex_lt.
  destruct (Z.compare_spec x.1.1 y.1.1), (Z.compare_spec x.1.2 y.1.2),
    (Z.compare_spec x.2 y.2);
    split; intros; try discriminate; try reflexivity; try lia.
Qed.

Lemma ltb_rank (x y : float) :
  PrimFloat.ltb x y = true <->
  exists a b, rank (Prim2SF x) = Some a /\ rank (Prim2SF y) = Some b /\ lex_lt a b.
Proof.
  rewrite FloatAxioms.ltb_spec. unfold SFltb. rewrite SFcompare_rank.
  destruct (rank (Prim2SF x)) as [a|], (rank (Prim2SF y)) as [b|];
    try (split; [discriminate | intros (? & ? & ? & ? & ?); discriminate]).
  split.
  - intros Hlt. exists a, b. repeat split. apply lex_Lt.
    destruct (lex a b); (reflexivity || discriminate).
  - intros (a' & b' & [= <-] & [= <-] & Hlt). apply lex_Lt in Hlt. rewrite Hlt.
    reflexivity.
Qed.

Lemma leb_rank (x y : float) :
  PrimFloat.leb x y = true <->
  exists a b,
    rank (Prim2SF x) = Some a /\ rank (Prim2SF y) = Some b /\ ~ lex_lt b a.
Proof.
  rewrite FloatAxioms.leb_spec. unfold SFleb. rewrite SFcompare_rank.
  destruct (rank (Prim2SF x)) as [a|], (rank (Prim2SF y)) as [b|];
    try (split; [discriminate | intros (? & ? & ? & ? & ?); discriminate]).
  split.
  - intros Hle. exists a, b. repeat split. rewrite <- lex_Gt.
    destruct (lex a b); (discriminate || congruence).
  - intros (a' & b' & [= <-] & [= <-] & Hle). rewrite <- lex_Gt in Hle.
    destruct (lex a b); (reflexivity || congruence).
Qed.

Lemma float_lt_irrefl (x : float) : PrimFloat.ltb x x = false.
Proof.
  apply not_true_iff_false. rewrite ltb_rank.
  intros (a & b & Ha & Hb & Hlt). rewrite Ha in Hb. injection Hb as <-.
  unfold lex_lt in Hlt. lia.
Qed.

Lemma float_lt_le_trans (x y z : float) :
  PrimFloat.ltb x y = true -> PrimFloat.leb y z = true ->
  PrimFloat.ltb x z = true.
Proof.
  rewrite !ltb_rank, leb_rank.
  intros (a & b & Ha & Hb & Hab) (b' & c & Hb' & Hc & Hbc).
  rewrite Hb in Hb'. injection Hb' as <-.
  exists a, c. repeat split; try assumption. unfold lex_lt in *. lia.
Qed.

Lemma float_lt_asym (x y : float) :
  PrimFloat.ltb x y = true -> PrimFloat.ltb y x = false.
Proof.
  intros Hxy. apply not_true_iff_false. revert Hxy. rewrite !ltb_rank.
  intros (a & b & Ha & Hb & Hab) (b' & a' & Hb' & Ha' & Hba).
  rewrite Ha in Ha'. rewrite Hb in Hb'. injection Ha' as <-. injection Hb' as <-.
  unfold lex_lt in *. lia.
Qed.

Lemma float_le_not_lt (x y : float) :
  PrimFloat.leb x y = true -> PrimFloat.ltb y x = false.
Proof.
  intros Hxy. apply not_true_iff_false. revert Hxy. rewrite ltb_rank, leb_rank.
  intros (a & b & Ha & Hb & Hab) (b' & a' & Hb' & Ha' & Hba).
  rewrite Ha in Ha'. rewrite Hb in Hb'. injection Ha' as <-. injection Hb' as <-.
  contradiction.
Qed.

End Binary64Order.

#[export] Instance float_JsOrder : JsOrder float := {|
  js_le := PrimFloat.leb;
  js_lt_irrefl := float_lt_irrefl;
  js_lt_asym := float_lt_asym;
  js_lt_le_trans := float_lt_le_trans;
  js_le_not_lt := float_le_not_lt
|}.

(** The decimal literals of the scripts, as binary64 values. *)
Example literals_binary64 :
  hundredths 5 = 0x1.999999999999ap-5%float
  /\ hundredths 25 = 0x1p-2%float
  /\ hundredths 50 = 0x1p-1%float
  /\ hundredths 300 = 0x1.8p+1%float.
Proof. repeat split; vm_compute; reflexivity. Qed.

(** ** Exact arithmetic: rounding to two decimals *)

Section ExactRounding.
Local Open Scope Q_scope.

Lemma Qround_half_up_mono (x y : Q) :
  x <= y -> Qround_half_up x <= Qround_half_up y.
Proof.
  intros Hxy. unfold Qround_half_up. rewrite <- Zle_Qle.
  apply Qfloor_resp_le. lra.
Qed.

Lemma Qround_half_up_comp (x y : Q) :
  x == y -> Qround_half_up x = Qround_half_up y.
Proof.
  intros Hxy. unfold Qround_half_up. f_equal. apply Qfloor_comp.
  rewrite Hxy. reflexivity.
Qed.

Lemma Qround_half_up_Z (k : Z) : Qround_half_up (inject_Z k) = inject_Z k.
Proof.
  unfold Qround_half_up. f_equal.
  pose proof (Qfloor_le (inject_Z k + (1 # 2))) as Hlo.
  pose proof (Qlt_floor (inject_Z k + (1 # 2))) as Hhi.
  set (f := Qfloor (inject_Z k + (1 # 2))) in *. clearbody f.
  rewrite inject_Z_plus in Hhi. change (inject_Z 1) with 1 in Hhi.
  assert (forall a b : Q,
            a <= b + (1 # 2) -> b + (1 # 2) < a + 1 -> a < b + 1 /\ b + -1 < a)
    as Hsandwich by (intros; lra).
  destruct (Hsandwich _ _ Hlo Hhi) as [H1 H2].
  change 1 with (inject_Z 1) in H1. change (-1) with (inject_Z (-1)) in H2.
  rewrite <- inject_Z_plus in H1, H2.
  rewrite <- Zlt_Qlt in H1, H2. lia.
Qed.

Lemma round2_two_decimals (x : Q) : two_decimals (round2 x).
Proof.
  exists (Qfloor (x * 100 + (1 # 2))). unfold round2. unfold_js.
  unfold Qround_half_up. change (inject_Z 100) with 100. reflexivity.
Qed.

Lemma round2_fixed (x : Q) : two_decimals x -> round2 x == x.
Proof.
  intros [k Hk]. unfold round2. unfold_js. change (inject_Z 100) with 100.
  rewrite (Qround_half_up_comp (x * 100) (inject_Z k)).
  - rewrite Qround_half_up_Z. symmetry. exact Hk.
  - rewrite Hk. field.
Qed.

Lemma round2_mono (x y : Q) : x <= y -> round2 x <= round2 y.
Proof.
  intros Hxy. unfold round2. unfold_js. change (inject_Z 100) with 100.
  assert (Qround_half_up (x * 100) <= Qround_half_up (y * 100)) as Hr
    by (apply Qround_half_up_mono; lra).
  unfold Qdiv. apply Qmult_le_compat_r; [exact Hr | ].
  apply Qlt_le_weak, Qinv_lt_0_compat. reflexivity.
Qed.

Lemma round2_comp (x y : Q) : x == y -> round2 x = round2 y.
Proof.
  intros Hxy. unfold round2. unfold_js. f_equal. apply Qround_half_up_comp.
  rewrite Hxy. reflexivity.
Qed.

Lemma max_min_clamp (lo hi x : Q) :
  lo <= hi -> max_min lo hi x == clamp x lo hi.
Proof.
  intros Hord. unfold max_min, clamp. unfold_js.
  destruct (Qltb x hi) eqn:Hxhi, (Qltb x lo) eqn:Hxlo, (Qltb hi x) eqn:Hhix;
    rewrite ?Qltb_lt, ?Qltb_ge in *;
    repeat match goal with
           | |- context [Qltb ?a ?b] =>
               let E := fresh in
               destruct (Qltb a b) eqn:E; rewrite ?Qltb_lt, ?Qltb_ge in E
           end;
    lra.
Qed.


Lemma clamp_bounds (lo hi x : Q) :
  lo <= hi -> lo <= clamp x lo hi /\ clamp x lo hi <= hi.
Proof.
  intros Hord. unfold clamp.
  destruct (Qltb x lo) eqn:E1; [lra|]. apply Qltb_ge in E1.
  destruct (Qltb hi x) eqn:E2; [lra|]. apply Qltb_ge in E2. lra.
Qed.

(** With ordered bounds the rate handed to the rounding lies between them,
    whatever the step and the policy. *)
Lemma newRate_within (config : Config Q) currentRate up options :
  minRate config <= maxRate config ->
  minRate config <= newRate config currentRate up options
  /\ newRate config currentRate up options <= maxRate config.
Proof.
  intros Hord. unfold newRate. unfold_js.
  set (inc := if coarse options then _ else _).
  set (new := if up then _ else _).
  destruct (Qltb (maxRate config) new) eqn:Hhi.
  - destruct (wrap options).
    + destruct (Qltb (minRate config) (minRate config)) eqn:Hlo.
      * apply Qltb_lt in Hlo. lra.
      * lra.
    + destruct (Qltb (maxRate config) (minRate config)) eqn:Hlo.
      * apply Qltb_lt in Hlo. lra.
      * lra.
  - apply Qltb_ge in Hhi.
    destruct (Qltb new (minRate config)) eqn:Hlo.
    + destruct (wrap options); lra.
    + apply Qltb_ge in Hlo. lra.
Qed.

(** Every directional result lies between the rounded bounds. *)
Lemma directionalRate_within (config : Config Q) currentRate up options :
  minRate config <= maxRate config ->
  round2 (minRate config) <= directionalRate config currentRate up options
  /\ directionalRate config currentRate up options <= round2 (maxRate config).
Proof.
  intros Hord. unfold directionalRate.
  destruct (newRate_within config currentRate up options Hord).
  split; apply round2_mono; assumption.
Qed.

End ExactRounding.

(** ** Stepping past a bound, in either number model *)

Section PastTheBound.
Context {num : Type} `{JsOrder num}.
Local Open Scope js_scope.

(** Without wrap, a step past a bound ends on that bound, rounded. *)
Lemma saturate_at_bounds (config : Config num) (currentRate : num) options :
  wrap options = false ->
  (minRate config <=? maxRate config) = true ->
  ((maxRate config <? currentRate + increment_of config options) = true ->
   directionalRate config currentRate true options = round2 (maxRate config))
  /\ ((currentRate - increment_of config options <? minRate config) = true ->
      directionalRate config currentRate false options
      = round2 (minRate config)).
Proof.
  intros Hwrap Hord. unfold directionalRate, newRate, increment_of.
  rewrite Hwrap. set (inc := if coarse options then _ else _).
  split; intros Hstep.
  - rewrite Hstep, (js_le_not_lt _ _ Hord). reflexivity.
  - rewrite (js_lt_asym _ _ (js_lt_le_trans _ _ _ Hstep Hord)), Hstep.
    reflexivity.
Qed.

End PastTheBound.

(** ** What [setPlaybackRate] and [setRate] leave behind *)

Section Effects.
Context {num : Type} `{JsNumber num}.

Lemma setPlaybackRate_no_video (w : World num) rate options :
  currentVideo_or_find w = None ->
  setPlaybackRate rate options w = log No_video_found w.
Proof. intros Hnone. unfold setPlaybackRate. rewrite Hnone. reflexivity. Qed.

Lemma updateRateDisplay_frame (rate : num) (w : World num) :
  storage (updateRateDisplay rate w) = storage w
  /\ heap (updateRateDisplay rate w) = heap w
  /\ state (updateRateDisplay rate w) = state w
  /\ document (updateRateDisplay rate w) = document w
  /\ console (updateRateDisplay rate w) = console w.
Proof.
  unfold updateRateDisplay.
  destruct (rateDisplay_target (document w)); repeat split.
Qed.

(** With a video at hand the call writes the target rate to the element and
    to the store, and remembers the element. *)
Lemma setPlaybackRate_video (w : World num) rate options video :
  currentVideo_or_find w = Some video ->
  let r := targetRate (config (state w)) (playbackRate (deref w video))
                      rate options in
  let w' := setPlaybackRate rate options w in
  udemy_playback_rate (storage w') = Some r
  /\ udemy_config (storage w') = udemy_config (storage w)
  /\ udemy_presets (storage w') = udemy_presets (storage w)
  /\ playbackRate (deref w' video) = r
  /\ currentVideo (state w') = Some video
  /\ config (state w') = config (state w)
  /\ document w' = document w.
Proof.
  intros Hvideo. cbv zeta. unfold setPlaybackRate. rewrite Hvideo.
  unfold showSpeedToast, updateRateDisplay.
  destruct (rateDisplay_target _); cbn;
    repeat split; unfold deref; cbn; rewrite lookup_insert_eq; reflexivity.
Qed.

Lemma currentVideo_or_find_tracked (w : World num) video :
  currentVideo (state w) = Some video -> currentVideo_or_find w = Some video.
Proof. intros Hcv. unfold currentVideo_or_find. rewrite Hcv. reflexivity. Qed.

(** The store after any call: the rate entry is the only one that can
    change. *)
Lemma setPlaybackRate_storage (w : World num) rate options :
  storage (setPlaybackRate rate options w) =
    match currentVideo_or_find w with
    | Some video =>
        {| udemy_playback_rate :=
             Some (targetRate (config (state w)) (playbackRate (deref w video))
                              rate options);
           udemy_config := udemy_config (storage w);
           udemy_presets := udemy_presets (storage w) |}
    | None => storage w
    end.
Proof.
  unfold setPlaybackRate.
  destruct (currentVideo_or_find w) as [video|]; [|reflexivity].
  unfold showSpeedToast, updateRateDisplay.
  destruct (rateDisplay_target _); reflexivity.
Qed.

(** The popup's [setRate] stores the clamped and rounded rate; forwarding it
    to the tab does not change what is stored. *)
Lemma setRate_storage (b : Browser num) (rate : num) :
  let cfg := currentConfig (popup b) in
  storage (world (setRate rate b)) =
    {| udemy_playback_rate :=
         Some (round2 (max_min (minRate cfg) (maxRate cfg) rate));
       udemy_config := udemy_config (storage (world b));
       udemy_presets := udemy_presets (storage (world b)) |}.
Proof.
  cbv zeta. unfold setRate, sendToTab, max_min. cbn.
  destruct (tab_url b) as [url|]; [|reflexivity].
  destruct (includes url "udemy.com" && content_loaded b); [|reflexivity].
  cbn. rewrite setPlaybackRate_storage.
  destruct (currentVideo_or_find _); reflexivity.
Qed.

Lemma setRate_popup (b : Browser num) (rate : num) :
  currentConfig (popup (setRate rate b)) = currentConfig (popup b)
  /\ tab_url (setRate rate b) = tab_url b
  /\ content_loaded (setRate rate b) = content_loaded b.
Proof.
  unfold setRate, sendToTab, updateSpeedDisplay, set_popup, set_world. cbn.
  destruct (tab_url b) as [url|] eqn:Hurl; [|by rewrite ?Hurl].
  destruct (includes url "udemy.com" && content_loaded b); by rewrite ?Hurl.
Qed.

(** When the active tab is a Udemy tab with a content script and a video,
    the video ends up at the rate the popup stored. *)
Lemma setRate_video (b : Browser num) (rate : num) url video :
  tab_url b = Some url -> includes url "udemy.com" = true ->
  content_loaded b = true ->
  currentVideo_or_find (world b) = Some video ->
  let cfg := currentConfig (popup b) in
  playbackRate (deref (world (setRate rate b)) video)
  = round2 (max_min (minRate cfg) (maxRate cfg) rate).
Proof.
  intros Hurl Hudemy Hloaded Hvideo. cbv zeta.
  unfold setRate, sendToTab, updateSpeedDisplay, set_popup, set_world.
  cbn [tab_url content_loaded world popup].
  rewrite Hurl, Hudemy, Hloaded.
  cbn [andb onMessage fst world].
  fold (max_min (minRate (currentConfig (popup b)))
                (maxRate (currentConfig (popup b))) rate).
  set (r := round2 _).
  pose proof (setPlaybackRate_video (savePlaybackRate r (world b))
                (explicit r) no_options video Hvideo) as Hset.
  cbv zeta in Hset. apply Hset.
Qed.

Lemma currentVideo_or_find_savePlaybackRate (rate : num) (w : World num) :
  currentVideo_or_find (savePlaybackRate rate w) = currentVideo_or_find w.
Proof. reflexivity. Qed.

End Effects.

(** ** The saturation and wrap laws *)

Section RateLaws.
Local Open Scope Q_scope.

(** C3, amended.  Saturation law: for all current rates, increments and
    bounds with [min <= currentRate <= max], a directional increase with
    [wrap = false] yields a result at most [max] rounded to two decimals, and
    a directional decrease one at least [min] rounded to two decimals; when
    the bound is itself a whole number of hundredths the result is at most
    [max], respectively at least [min].  (Exact arithmetic.) *)
Theorem saturation_law (config : Config Q) (currentRate : Q) (options : Options) :
  wrap options = false ->
  minRate config <= currentRate ->
  currentRate <= maxRate config ->
  directionalRate config currentRate true options <= round2 (maxRate config)
  /\ round2 (minRate config) <= directionalRate config currentRate false options
  /\ (two_decimals (maxRate config) ->
      directionalRate config currentRate true options <= maxRate config)
  /\ (two_decimals (minRate config) ->
      minRate config <= directionalRate config currentRate false options).
Proof.
  intros _ Hlo Hhi.
  assert (minRate config <= maxRate config) as Hord by lra.
  pose proof (directionalRate_within config currentRate true options Hord)
    as [_ Hup].
  pose proof (directionalRate_within config currentRate false options Hord)
    as [Hdown _].
  repeat split; try assumption.
  - intros Hmax. rewrite <- (round2_fixed _ Hmax). exact Hup.
  - intros Hmin. rewrite <- (round2_fixed _ Hmin). exact Hdown.
Qed.

Lemma saturation_law_witness :
  directionalRate DEFAULT_CONFIG 3 true coarse_options
    <= round2 (maxRate DEFAULT_CONFIG)
  /\ round2 (minRate DEFAULT_CONFIG)
       <= directionalRate DEFAULT_CONFIG 3 false coarse_options
  /\ directionalRate DEFAULT_CONFIG 3 true coarse_options
       <= maxRate DEFAULT_CONFIG
  /\ minRate DEFAULT_CONFIG
       <= directionalRate DEFAULT_CONFIG 3 false coarse_options.
Proof.
  assert (wrap coarse_options = false) as Hwrap by reflexivity.
  assert (minRate DEFAULT_CONFIG <= 3) as Hlo by (vm_compute; discriminate).
  assert (3 <= maxRate DEFAULT_CONFIG) as Hhi by (vm_compute; discriminate).
  destruct (saturation_law DEFAULT_CONFIG 3 coarse_options Hwrap Hlo Hhi)
    as (Hup & Hdown & Hmax & Hmin).
  split; [exact Hup|]. split; [exact Hdown|]. split.
  - apply Hmax. exists 300%Z. reflexivity.
  - apply Hmin. exists 50%Z. reflexivity.
Defined.

(** With an upper bound of 2.996 a fine increase from 2.99 saturates to the
    bound and is then rounded to 3.0, above the bound; the same happens in
    binary64. *)
Lemma saturation_overshoots_unrounded_bound :
  let config := config_with_bounds (1 # 2) (2996 # 1000) in
  let config64 : Config float :=
    config_with_bounds (hundredths 50) (of_Z 2996 / of_Z 1000)%js in
  wrap no_options = false
  /\ minRate config <= 299 # 100
  /\ 299 # 100 <= maxRate config
  /\ ~ directionalRate config (299 # 100) true no_options <= maxRate config
  /\ (minRate config64 <=? hundredths 299)%js = true
  /\ (hundredths 299 <=? maxRate config64)%js = true
  /\ (maxRate config64
        <? directionalRate config64 (hundredths 299) true no_options)%js = true.
Proof.
  cbv zeta. split; [reflexivity|].
  split; [vm_compute; discriminate|].
  split; [vm_compute; discriminate|].
  split; [|repeat split; vm_compute; reflexivity].
  intros Hle. vm_compute in Hle. apply Hle. reflexivity.
Qed.

End RateLaws.

Section WrapLaw.
Context {num : Type} `{JsOrder num}.
Local Open Scope js_scope.

(** C4.  Wrap law, in either number model: with [min <= currentRate <= max]
    and [wrap = true], an increase for which [currentRate + increment > max]
    yields [min], and a decrease for which [currentRate - increment < min]
    yields [max], each up to the two-decimal rounding applied to every
    result. *)
Theorem wrap_law (config : Config num) (currentRate : num) (options : Options) :
  wrap options = true ->
  (minRate config <=? currentRate) = true ->
  (currentRate <=? maxRate config) = true ->
  ((maxRate config <? currentRate + increment_of config options) = true ->
   directionalRate config currentRate true options = round2 (minRate config))
  /\ ((currentRate - increment_of config options <? minRate config) = true ->
      directionalRate config currentRate false options
      = round2 (maxRate config)).
Proof.
  intros Hwrap Hlo Hhi. unfold directionalRate, newRate, increment_of.
  rewrite Hwrap. set (inc := if coarse options then _ else _).
  split; intros Hstep.
  - rewrite Hstep, js_lt_irrefl. reflexivity.
  - pose proof (js_lt_le_trans _ _ _ (js_lt_le_trans _ _ _ Hstep Hlo) Hhi)
      as Hbelow.
    rewrite (js_lt_asym _ _ Hbelow), Hstep. reflexivity.
Qed.

End WrapLaw.

(** In exact arithmetic the wrapped result is the opposite bound itself when
    that bound is a whole number of hundredths. *)
Lemma wrap_law_exact (config : Config Q) (currentRate : Q) (options : Options) :
  wrap options = true ->
  (minRate config <= currentRate)%Q ->
  (currentRate <= maxRate config)%Q ->
  ((maxRate config < currentRate + increment_of config options)%Q ->
   two_decimals (minRate config) ->
   (directionalRate config currentRate true options == minRate config)%Q)
  /\ ((currentRate - increment_of config options < minRate config)%Q ->
      two_decimals (maxRate config) ->
      (directionalRate config currentRate false options == maxRate config)%Q).
Proof.
  intros Hwrap Hlo Hhi. unfold directionalRate, newRate, increment_of.
  rewrite Hwrap. unfold_js. set (inc := if coarse options then _ else _).
  split; intros Hstep Hdec.
  - apply Qltb_lt in Hstep. rewrite Hstep, Qltb_irrefl.
    apply round2_fixed, Hdec.
  - assert (Qltb (maxRate config) (currentRate - inc) = false) as Hnot
      by (apply Qltb_ge; lra).
    apply Qltb_lt in Hstep. rewrite Hnot, Hstep.
    apply round2_fixed, Hdec.
Qed.

(** Scenario C of the specification and its mirror image, in binary64: a
    fine increase at the upper bound 3.0 lands on 0.5, a fine decrease at the
    lower bound 0.5 lands on 3.0. *)
Lemma wrap_law_witness :
  directionalRate DEFAULT_CONFIG (float_of_Z 3) true fine_options
    = round2 (minRate DEFAULT_CONFIG)
  /\ directionalRate DEFAULT_CONFIG (hundredths 50 : float) false fine_options
     = round2 (maxRate DEFAULT_CONFIG).
Proof.
  split.
  - refine (proj1 (wrap_law DEFAULT_CONFIG (float_of_Z 3) fine_options
                     _ _ _) _); vm_compute; reflexivity.
  - refine (proj2 (wrap_law DEFAULT_CONFIG (hundredths 50 : float) fine_options
                     _ _ _) _); vm_compute; reflexivity.
Defined.

(** Scenarios A, B and C of the specification, in binary64. *)
Example scenarios_A_B_C :
  directionalRate DEFAULT_CONFIG (float_of_Z 1) true fine_options
    = hundredths 105
  /\ directionalRate DEFAULT_CONFIG (float_of_Z 3) true coarse_options
     = float_of_Z 3
  /\ directionalRate DEFAULT_CONFIG (float_of_Z 3) true fine_options
     = hundredths 50.
Proof. repeat split; vm_compute; reflexivity. Qed.

(** ** Rounding of results *)

Section Rounding.
Local Open Scope Q_scope.

(** Adding 0.05 ten times to 1.0 in binary64 without the rounding step does
    drift: the sum is not 1.5. *)
Example unrounded_sum_drifts :
  PrimFloat.eqb
    (Nat.iter 10 (fun r : float => (r + hundredths 5)%js) (float_of_Z 1))
    (hundredths 150) = false.
Proof. vm_compute. reflexivity. Qed.

(** C5.  Every result of a rate-change computation is a whole number of
    hundredths: the rate a directional request computes, the rate the popup's
    [setRate] stores (and forwards), and each keyboard preset (exact
    arithmetic).  Starting from 1.0, ten fine increases of 0.05 give exactly
    1.5: in binary64 through the rate computation alone, through ten
    Shift+ArrowRight key presses on the page and through ten clicks on the
    popup's increase button, and likewise in exact arithmetic. *)
Theorem two_decimal_results_without_drift :
  (forall (config : Config Q) currentRate up options,
     two_decimals (directionalRate config currentRate up options))
  /\ (forall (b : Browser Q) rate,
        exists v, udemy_playback_rate (storage (world (setRate rate b))) = Some v
                  /\ two_decimals v)
  /\ Forall two_decimals speedMap
  /\ Nat.iter 10 (fun r : float => directionalRate DEFAULT_CONFIG r true fine_options)
       (float_of_Z 1) = hundredths 150
  /\ (let w := Nat.iter 10 (keydown fine_increase_key) (lesson_world (float_of_Z 1)) in
      udemy_playback_rate (storage w) = Some (hundredths 150)
      /\ playbackRate (deref w 3%nat) = hundredths 150)
  /\ udemy_playback_rate
       (storage (world (Nat.iter 10 (popup_event click_increaseBtn)
                          (popup_over (lesson_world (float_of_Z 1))))))
     = Some (hundredths 150)
  /\ Nat.iter 10 (fun r : Q => directionalRate DEFAULT_CONFIG r true fine_options) 1
     = 150 # 100.
Proof.
  split; [intros; apply round2_two_decimals|].
  split.
  { intros b rate. rewrite setRate_storage. cbn [udemy_playback_rate].
    eexists. split; [reflexivity|]. apply round2_two_decimals. }
  split.
  { unfold speedMap. repeat constructor;
      match goal with |- two_decimals (hundredths ?k) => exists k; reflexivity end. }
  repeat split; vm_compute; reflexivity.
Qed.

End Rounding.

(** ** Explicit rates *)

Section ExplicitRates.
Local Open Scope Q_scope.




End ExplicitRates.

(** ** The persisted rate and the configured bounds *)

Section PersistedRate.
Local Open Scope Q_scope.

Lemma directionalRate_within_bounds (cfg : Config Q) currentRate up options :
  bounds_ok cfg -> within_bounds cfg (directionalRate cfg currentRate up options).
Proof.
  intros (Hmin & Hmax & Hord).
  destruct (directionalRate_within cfg currentRate up options Hord) as [Hlo Hhi].
  rewrite (round2_fixed _ Hmin) in Hlo. rewrite (round2_fixed _ Hmax) in Hhi.
  split; assumption.
Qed.

(** Directional requests, the ones with a "Clamp to bounds" step, keep the
    persisted rate inside the bounds, one by one and in any sequence. *)
Lemma directional_call_stays_within_bounds (w : World Q) rate options :
  bounds_ok (config (state w)) -> is_directional rate ->
  persisted_within_bounds w ->
  persisted_within_bounds (setPlaybackRate rate options w)
  /\ config (state (setPlaybackRate rate options w)) = config (state w).
Proof.
  intros Hok Hdir Hinv. unfold persisted_within_bounds.
  destruct (currentVideo_or_find w) as [video|] eqn:Hvideo.
  - pose proof (setPlaybackRate_video w rate options video Hvideo) as Hset.
    cbv zeta in Hset. destruct Hset as (Hst & _ & _ & _ & _ & Hcfg & _).
    rewrite Hst, Hcfg. split; [|reflexivity].
    destruct rate; [ | | destruct Hdir];
      apply directionalRate_within_bounds, Hok.
  - rewrite (setPlaybackRate_no_video w rate options Hvideo).
    split; [exact Hinv | reflexivity].
Qed.

Lemma directional_calls_stay_within_bounds
    (calls : list (RateArg Q * Options)) (w : World Q) :
  bounds_ok (config (state w)) ->
  Forall (fun call => is_directional (fst call)) calls ->
  persisted_within_bounds w ->
  persisted_within_bounds
    (fold_left (fun w call => setPlaybackRate (fst call) (snd call) w) calls w).
Proof.
  revert w. induction calls as [|[rate options] calls IH]; intros w Hok Hdir Hinv.
  - exact Hinv.
  - inversion Hdir as [|? ? Hhead Htail]; subst. cbn [fold_left fst snd].
    destruct (directional_call_stays_within_bounds w rate options Hok Hhead Hinv)
      as [Hinv' Hcfg].
    apply IH; [rewrite Hcfg; exact Hok | exact Htail | exact Hinv'].
Qed.

(** So does the popup's [setRate], which has its own "Clamp rate" step. *)
Lemma setRate_within_bounds (b : Browser Q) (rate : Q) :
  bounds_ok (currentConfig (popup b)) ->
  exists r, udemy_playback_rate (storage (world (setRate rate b))) = Some r
            /\ within_bounds (currentConfig (popup b)) r.
Proof.
  intros (Hmin & Hmax & Hord). rewrite setRate_storage.
  cbn [udemy_playback_rate]. eexists. split; [reflexivity|].
  set (cfg := currentConfig (popup b)) in *.
  rewrite (round2_comp _ _ (max_min_clamp _ _ rate Hord)).
  destruct (clamp_bounds (minRate cfg) (maxRate cfg) rate Hord) as [Hlo Hhi].
  apply round2_mono in Hlo, Hhi.
  rewrite (round2_fixed _ Hmin) in Hlo. rewrite (round2_fixed _ Hmax) in Hhi.
  split; assumption.
Qed.

(** C2.  The persisted rate is to stay within [minRate, maxRate] after every
    rate-change command.  The explicit path of [setPlaybackRate] has no
    clamp: with the minimum speed configured as 1.0, Shift+1 (preset 0.5)
    applies 0.5 to the video and persists 0.5, below the minimum, in exact
    arithmetic and in binary64. *)
Theorem preset_key_ignores_bounds :
  (let w := keydown (key "Digit1" true false false)
              (with_config (config_with_bounds 1 3) (lesson_world (125 # 100))) in
   udemy_playback_rate (storage w) = Some (50 # 100)
   /\ playbackRate (deref w 3%nat) = 50 # 100
   /\ minRate (config (state w)) = 1
   /\ 50 # 100 < 1)
  /\ (let w := keydown (key "Digit1" true false false)
                 (with_config (config_with_bounds (float_of_Z 1) (float_of_Z 3))
                    (lesson_world (hundredths 125))) in
      udemy_playback_rate (storage w) = Some (hundredths 50)
      /\ minRate (config (state w)) = float_of_Z 1
      /\ (hundredths 50 <? float_of_Z 1)%js = true).
Proof. cbv zeta. repeat split; vm_compute; reflexivity. Qed.

End PersistedRate.

(** ** Idempotence of the explicit set *)

Section Idempotence.
Context {num : Type} `{JsNumber num}.

Lemma setPlaybackRate_explicit_twice (w : World num) (r : num) options :
  storage (setPlaybackRate (explicit r) options
             (setPlaybackRate (explicit r) options w))
  = storage (setPlaybackRate (explicit r) options w).
Proof.
  destruct (currentVideo_or_find w) as [video|] eqn:Hvideo.
  - pose proof (setPlaybackRate_video w (explicit r) options video Hvideo)
      as Hset.
    cbv zeta in Hset. destruct Hset as (Hst & Hcf & Hpr & _ & Hcv & _).
    rewrite (setPlaybackRate_storage (setPlaybackRate (explicit r) options w)).
    rewrite (currentVideo_or_find_tracked _ video Hcv).
    rewrite (setPlaybackRate_storage w), Hvideo. reflexivity.
  - rewrite (setPlaybackRate_no_video w _ _ Hvideo).
    assert (currentVideo_or_find (log No_video_found w) = None) as Hstill
      by exact Hvideo.
    rewrite (setPlaybackRate_no_video _ _ _ Hstill). reflexivity.
Qed.

(** C9.  Idempotence of the explicit set: for every rate and every state,
    doing the explicit set twice in a row with the same rate leaves the same
    stored value (indeed the same store) as doing it once, both for the
    popup's [setRate] and for the content script's [setPlaybackRate] with a
    number. *)
Theorem explicit_set_idempotent :
  (forall (b : Browser num) (r : num),
     storage (world (setRate r (setRate r b))) = storage (world (setRate r b)))
  /\ (forall (w : World num) (r : num) options,
        storage (setPlaybackRate (explicit r) options
                   (setPlaybackRate (explicit r) options w))
        = storage (setPlaybackRate (explicit r) options w)).
Proof.
  split.
  - intros b r. rewrite (setRate_storage (setRate r b)). cbv zeta.
    destruct (setRate_popup b r) as (-> & _ & _).
    rewrite (setRate_storage b). reflexivity.
  - apply setPlaybackRate_explicit_twice.
Qed.

End Idempotence.

(** ** The keyboard interpreter *)

Section Keyboard.
Context {num : Type} `{JsOrder num}.
Local Open Scope js_scope.

Lemma keydown_calls_arrow (event : KeyboardEvent) (up : bool) :
  target_tagName event <> "INPUT" ->
  target_tagName event <> "TEXTAREA" ->
  target_isContentEditable event = false ->
  code event = (if up then "ArrowRight" else "ArrowLeft") ->
  shiftKey event = true ->
  keydown_calls (num:=num) event =
    if ctrlKey event
    then [(if up then increase else decrease, coarse_options)]
    else if altKey event then []
    else [(if up then increase else decrease, fine_options)].
Proof.
  intros Hinput Htextarea Heditable Hcode Hshift. unfold keydown_calls.
  apply String.eqb_neq in Hinput, Htextarea.
  rewrite Hinput, Htextarea, Heditable, Hcode, Hshift.
  destruct up, (ctrlKey event), (altKey event); reflexivity.
Qed.

Lemma keydown_calls_wrap (event : KeyboardEvent)
    (rate : RateArg num) (options : Options) :
  In (rate, options) (keydown_calls event) ->
  is_directional rate ->
  wrap options = negb (coarse options).
Proof.
  unfold keydown_calls. intros Hin Hdir.
  destruct (_ || _ || target_isContentEditable event); [destruct Hin|].
  rewrite !in_app_iff in Hin.
  destruct Hin as [Hin|[Hin|[Hin|[Hin|Hin]]]].
  1-4: match type of Hin with
       | In _ (if ?c then _ else _) => destruct c
       end;
       [destruct Hin as [Heq|[]]; inversion Heq; reflexivity | destruct Hin].
  exfalso.
  repeat match type of Hin with
         | In _ [] => destruct Hin
         | In _ (if ?c then _ else _) => destruct c
         | In _ (match ?c with Some _ => _ | None => _ end) => destruct c
         end.
  destruct Hin as [Heq|[]]. inversion Heq; subst. exact Hdir.
Qed.

(** A coarse key press on a page with a video stores the coarse step from
    the video's rate, computed without wrap. *)
Lemma coarse_keydown_stored (w : World num) (event : KeyboardEvent)
    (up : bool) (video : ref) :
  target_tagName event <> "INPUT" ->
  target_tagName event <> "TEXTAREA" ->
  target_isContentEditable event = false ->
  code event = (if up then "ArrowRight" else "ArrowLeft") ->
  shiftKey event = true -> ctrlKey event = true ->
  currentVideo_or_find w = Some video ->
  udemy_playback_rate (storage (keydown event w))
  = Some (directionalRate (config (state w)) (playbackRate (deref w video))
                          up coarse_options).
Proof.
  intros Hinput Htextarea Heditable Hcode Hshift Hctrl Hvideo.
  unfold keydown.
  rewrite (keydown_calls_arrow event up Hinput Htextarea Heditable Hcode Hshift).
  rewrite Hctrl. cbn [fold_left fst snd].
  rewrite setPlaybackRate_storage, Hvideo. cbn [udemy_playback_rate].
  destruct up; reflexivity.
Qed.

(** C10.  The keyboard interpreter asks for wrap-on-overflow exactly for the
    fine directional commands: outside editable targets, Shift+Arrow (no
    Ctrl, no Alt) makes the single call [setPlaybackRate(direction,
    {coarse: false, wrap: true})] and Ctrl+Shift+Arrow the single call
    [setPlaybackRate(direction, {coarse: true, wrap: false})]; every
    directional call the listener ever makes has [wrap] equal to the negation
    of [coarse]; so, for ordered bounds, a coarse command that would pass a
    bound stores that bound (rounded to two decimals).  (Either number
    model.) *)
Theorem wrap_exactly_on_fine :
  (forall (event : KeyboardEvent) (up : bool),
     target_tagName event <> "INPUT" ->
     target_tagName event <> "TEXTAREA" ->
     target_isContentEditable event = false ->
     code event = (if up then "ArrowRight" else "ArrowLeft") ->
     shiftKey event = true ->
     (ctrlKey event = false -> altKey event = false ->
      keydown_calls (num:=num) event
      = [(if up then increase else decrease, {| coarse := false; wrap := true |})])
     /\ (ctrlKey event = true ->
         keydown_calls (num:=num) event
         = [(if up then increase else decrease,
             {| coarse := true; wrap := false |})]
         /\ forall (w : World num) video,
              currentVideo_or_find w = Some video ->
              let cfg := config (state w) in
              let current := playbackRate (deref w video) in
              let stored := udemy_playback_rate (storage (keydown event w)) in
              (minRate cfg <=? maxRate cfg) = true ->
              (up = true -> (maxRate cfg <? current + coarseIncrement cfg) = true ->
               stored = Some (round2 (maxRate cfg)))
              /\ (up = false ->
                  (current - coarseIncrement cfg <? minRate cfg) = true ->
                  stored = Some (round2 (minRate cfg)))))
  /\ (forall (event : KeyboardEvent) (rate : RateArg num) (options : Options),
        In (rate, options) (keydown_calls event) ->
        is_directional rate ->
        wrap options = negb (coarse options)).
Proof.
  split; [|apply keydown_calls_wrap].
  intros event up Hinput Htextarea Heditable Hcode Hshift.
  pose proof (keydown_calls_arrow event up Hinput Htextarea Heditable
                Hcode Hshift) as Hcalls.
  split.
  - intros Hctrl Halt. rewrite Hcalls, Hctrl, Halt. reflexivity.
  - intros Hctrl. split; [rewrite Hcalls, Hctrl; reflexivity|].
    intros w video Hvideo cfg current stored Hord.
    unfold stored.
    rewrite (coarse_keydown_stored w event up video Hinput Htextarea Heditable
               Hcode Hshift Hctrl Hvideo).
    destruct (saturate_at_bounds cfg current coarse_options eq_refl Hord)
      as [Hup Hdown].
    split; intros -> Hstep; f_equal; [apply Hup | apply Hdown]; exact Hstep.
Qed.

End Keyboard.

(** Shift+ArrowRight asks for a fine step with wrap, Ctrl+Shift+ArrowLeft for
    a coarse step without, and Ctrl+Shift+ArrowRight on a video already at
    3.0 leaves 3.0 stored (binary64). *)
Lemma wrap_exactly_on_fine_witness :
  keydown_calls (num:=float) (key "ArrowRight" true false false)
  = [(increase, {| coarse := false; wrap := true |})]
  /\ keydown_calls (num:=float) (key "ArrowLeft" true true false)
     = [(decrease, {| coarse := true; wrap := false |})]
  /\ udemy_playback_rate
       (storage (keydown (key "ArrowRight" true true false)
                   (lesson_world (float_of_Z 3))))
     = Some (round2 (maxRate DEFAULT_CONFIG))
  /\ wrap fine_options = negb (coarse fine_options).
Proof.
  destruct (wrap_exactly_on_fine (num:=float)) as [Harrow Hwrap].
  assert ("BODY" <> "INPUT") as Hinput by discriminate.
  assert ("BODY" <> "TEXTAREA") as Htextarea by discriminate.
  split.
  { apply (Harrow (key "ArrowRight" true false false) true Hinput Htextarea
             eq_refl eq_refl eq_refl); reflexivity. }
  split.
  { apply (Harrow (key "ArrowLeft" true true false) false Hinput Htextarea
             eq_refl eq_refl eq_refl). reflexivity. }
  split.
  { destruct (Harrow (key "ArrowRight" true true false) true Hinput Htextarea
                eq_refl eq_refl eq_refl) as [_ Hcoarse].
    destruct (Hcoarse eq_refl) as [_ Hstored].
    destruct (Hstored (lesson_world (float_of_Z 3)) 3%nat eq_refl) as [Hup _].
    - vm_compute. reflexivity.
    - apply Hup; [reflexivity | vm_compute; reflexivity]. }
  apply (Hwrap (key "ArrowRight" true false false) increase fine_options).
  - left. reflexivity.
  - exact I.
Defined.

(** ** No video at hand *)

Section NoVideo.
Context {num : Type} `{JsNumber num}.

(** C7, amended.  When the script holds no video handle
    ([state.currentVideo] is null) and the locator returns none, a
    rate-change operation of any kind is skipped: it logs "No video found"
    and changes nothing else: the persisted rate and the rest of the store,
    the video elements, the script state, the document and the on-screen
    feedback are as before. *)
Theorem no_video_is_skipped (w : World num) (rate : RateArg num)
    (options : Options) :
  currentVideo (state w) = None ->
  findVideoElement w = None ->
  let w' := setPlaybackRate rate options w in
  console w' = console w ++ [No_video_found]
  /\ storage w' = storage w
  /\ heap w' = heap w
  /\ state w' = state w
  /\ document w' = document w
  /\ screen w' = screen w.
Proof.
  intros Hnone Hlocate. cbv zeta.
  rewrite setPlaybackRate_no_video.
  - repeat split.
  - unfold currentVideo_or_find. rewrite Hnone. exact Hlocate.
Qed.

End NoVideo.

Lemma no_video_is_skipped_witness :
  let w := world_of empty_document ∅ (initial_state (num:=float)) in
  let w' := setPlaybackRate increase fine_options w in
  console w' = console w ++ [No_video_found]
  /\ storage w' = storage w
  /\ heap w' = heap w
  /\ state w' = state w
  /\ document w' = document w
  /\ screen w' = screen w.
Proof.
  apply (no_video_is_skipped
           (world_of empty_document ∅ (initial_state (num:=float)))
           increase fine_options).
  - reflexivity.
  - reflexivity.
Defined.

(** The page has dropped its video, so the locator returns none, but the
    script still holds the old element: a fine increase is not skipped.  It
    logs no "No video found", sets the detached element to 1.05 and
    overwrites the persisted rate 1.35 with 1.05. *)
Lemma stale_handle_is_not_skipped :
  let w := savePlaybackRate (hundredths 135) (stale_world (float_of_Z 1)) in
  let w' := setPlaybackRate increase fine_options w in
  findVideoElement w = None
  /\ udemy_playback_rate (storage w) = Some (hundredths 135)
  /\ udemy_playback_rate (storage w') = Some (hundredths 105)
  /\ playbackRate (deref w' 3%nat) = hundredths 105
  /\ console w' = [Speed_set_to (hundredths 105)].
Proof. cbv zeta. repeat split; vm_compute; reflexivity. Qed.

(** ** The synchronizer and the host page's own rate changes *)

Section Synchronizer.
Context {num : Type} `{JsNumber num}.

Lemma on_ratechange_noop (video : ref) (w : World num) :
  on_ratechange video w = w.
Proof. unfold on_ratechange. destruct (_ || _); reflexivity. Qed.

Lemma applyStoredRate_storage (video : ref) (w : World num) :
  storage (applyStoredRate video w) = storage w.
Proof.
  unfold applyStoredRate.
  destruct (negb _);
    rewrite (proj1 (updateRateDisplay_frame _ _)); reflexivity.
Qed.

Lemma run_listener_storage (l : Listener) (video : ref) (w : World num) :
  storage (run_listener l video w) = storage w.
Proof.
  destruct l; cbn [run_listener].
  - apply applyStoredRate_storage.
  - rewrite on_ratechange_noop. reflexivity.
Qed.

Lemma dispatchEvent_storage (video : ref) (type : string) (w : World num) :
  storage (dispatchEvent video type w) = storage w.
Proof.
  unfold dispatchEvent. generalize (listeners (deref w video)) as ls.
  intros ls. revert w.
  induction ls as [|[name l] ls IH]; intros w; cbn [fold_left fst snd].
  - reflexivity.
  - rewrite IH. destruct (String.eqb name type); [|reflexivity].
    apply run_listener_storage.
Qed.

Lemma attachVideoListeners_storage (video : ref) (w : World num) :
  storage (attachVideoListeners video w) = storage w.
Proof.
  unfold attachVideoListeners.
  destruct (_superlearnerAttached _); [reflexivity|].
  destruct (1 <=? _)%nat; [|reflexivity].
  rewrite applyStoredRate_storage. reflexivity.
Qed.

(** What the [ratechange] listener sees after the host page sets the rate of
    a video the script attached to when it was new: the other listeners do
    not run and nothing at all changes. *)
Lemma ratechange_on_attached_video (video : ref) (hostRate : num) (w : World num) :
  heap w !! video = None ->
  let w' := write_playbackRate video hostRate (attachVideoListeners video w) in
  dispatchEvent video "ratechange" w' = w'.
Proof.
  intros Hnew. cbv zeta.
  unfold dispatchEvent, attachVideoListeners, write_playbackRate, deref.
  rewrite Hnew. cbn.
  rewrite !lookup_insert_eq. cbn.
  apply on_ratechange_noop.
Qed.

(** C8.  The synchronizer never persists a rate in response to the host
    page's own rate changes: the [ratechange] listener changes nothing;
    whatever event fires on a video, with whatever listeners, the persisted
    store is left as it was; in particular after the host page has set a rate
    on an attached video and [ratechange] fires, the store is the one from
    before.  The persisted value only flows forward: [applyStoredRate] reads
    the store, leaves it unchanged, and when the element's rate differs
    writes the stored rate to the element. *)
Theorem ratechange_never_persists :
  (forall (video : ref) (w : World num), on_ratechange video w = w)
  /\ (forall (video : ref) (type : string) (w : World num),
        storage (dispatchEvent video type w) = storage w)
  /\ (forall (video : ref) (hostRate : num) (w : World num),
        storage (dispatchEvent video "ratechange"
                   (write_playbackRate video hostRate
                      (attachVideoListeners video w)))
        = storage w)
  /\ (forall (video : ref) (w : World num),
        storage (applyStoredRate video w) = storage w
        /\ (if js_eq (playbackRate (deref w video)) (getStoredRate w)
            then playbackRate (deref (applyStoredRate video w) video)
                 = playbackRate (deref w video)
            else playbackRate (deref (applyStoredRate video w) video)
                 = getStoredRate w)).
Proof.
  split; [apply on_ratechange_noop|].
  split; [apply dispatchEvent_storage|].
  split.
  { intros video hostRate w. rewrite dispatchEvent_storage.
    apply attachVideoListeners_storage. }
  intros video w. split; [apply applyStoredRate_storage|].
  unfold applyStoredRate, updateRateDisplay.
  destruct (js_eq _ _); cbn [negb];
    destruct (rateDisplay_target _); cbn; try reflexivity;
    unfold deref; cbn; rewrite lookup_insert_eq; reflexivity.
Qed.

End Synchronizer.

(** ** The video locator *)

Section Locator.

Lemma concat_map_ext_Forall {A B} (f g : A -> list B) (l : list A) :
  Forall (fun x => f x = g x) l -> concat (map f l) = concat (map g l).
Proof.
  induction 1 as [|x l Hx _ IH]; cbn; [reflexivity|]. rewrite Hx, IH. reflexivity.
Qed.

Lemma filter_concat {A} (p : A -> bool) (ls : list (list A)) :
  List.filter p (concat ls) = concat (map (List.filter p) ls).
Proof.
  induction ls as [|l ls IH]; cbn; [reflexivity|].
  rewrite List.filter_app, IH. reflexivity.
Qed.

Lemma head_filter {A} (p : A -> bool) (l : list A) :
  head (List.filter p l) = List.find p l.
Proof.
  induction l as [|x l IH]; cbn; [reflexivity|].
  destruct (p x); [reflexivity | exact IH].
Qed.

Lemma head_In {A} (l : list A) (x : A) : head l = Some x -> In x l.
Proof. destruct l; [discriminate|]. intros [= ->]. left. reflexivity. Qed.

(** A compound selector selects, in document order, exactly the elements
    that match it. *)
Lemma select_Sel (c : Compound) (inside : bool) (n : Node) :
  select (Sel c) inside n = List.filter (matches c) (nodes n).
Proof.
  revert inside.
  induction n as [id name cls attrs kids IH|id nodeType] using Node_tree_ind;
    intros inside; [|reflexivity].
  cbn [select nodes List.filter].
  set (self := Element id name cls attrs kids).
  assert (concat (map (select (Sel c) inside) kids)
          = List.filter (matches c) (concat (map nodes kids))) as Hkids.
  { rewrite filter_concat, map_map.
    apply concat_map_ext_Forall.
    eapply List.Forall_impl; [|exact IH]. intros k Hk. apply Hk. }
  rewrite Hkids. destruct (matches c self); reflexivity.
Qed.

(** Below an element that matches the left side of a descendant combinator,
    everything that matches the right side is selected. *)
Lemma select_Desc_inside (a c : Compound) (n : Node) :
  select (Desc a c) true n = List.filter (matches c) (nodes n).
Proof.
  induction n as [id name cls attrs kids IH|id nodeType] using Node_tree_ind;
    [|reflexivity].
  cbn [select nodes List.filter orb andb].
  set (self := Element id name cls attrs kids).
  rewrite filter_concat, map_map.
  rewrite (concat_map_ext_Forall _ _ kids IH).
  destruct (matches c self); reflexivity.
Qed.

(** A descendant combinator selects, in document order, what matches its
    right side among the nodes with an ancestor matching its left side. *)
Lemma select_Desc (a c : Compound) (n : Node) :
  select (Desc a c) false n = List.filter (matches c) (inside_nodes a n).
Proof.
  induction n as [id name cls attrs kids IH|id nodeType] using Node_tree_ind;
    [|reflexivity].
  cbn [select inside_nodes orb andb app].
  set (self := Element id name cls attrs kids).
  destruct (matches a self).
  - rewrite filter_concat, map_map.
    apply concat_map_ext_Forall, List.Forall_forall.
    intros k _. apply select_Desc_inside.
  - rewrite filter_concat, map_map.
    apply concat_map_ext_Forall, IH.
Qed.

Lemma nodes_self (n : Node) : In n (nodes n).
Proof. destruct n; left; reflexivity. Qed.

Lemma nodes_children (n : Node) :
  nodes n = n :: concat (map nodes (node_children n)).
Proof. destruct n; reflexivity. Qed.

Lemma nodes_trans (n m v : Node) :
  In m (nodes n) -> In v (nodes m) -> In v (nodes n).
Proof.
  induction n as [id name cls attrs kids IH|id nodeType] using Node_tree_ind.
  - cbn [nodes]. intros [<-|Hm] Hv; [exact Hv|]. right.
    apply in_concat in Hm as (l & Hl & Hm).
    apply in_map_iff in Hl as (kid & <- & Hkid).
    rewrite List.Forall_forall in IH.
    apply in_concat. exists (nodes kid). split; [apply in_map, Hkid|].
    apply (IH kid Hkid Hm Hv).
  - cbn [nodes]. intros [<-|[]] Hv. exact Hv.
Qed.

(** The nodes with an ancestor matching [a] are the nodes below some
    element of the tree that matches [a]. *)
Lemma inside_nodes_In (a : Compound) (n v : Node) :
  In v (inside_nodes a n)
  <-> exists region,
        In region (nodes n) /\ matches a region = true
        /\ In v (concat (map nodes (node_children region))).
Proof.
  induction n as [id name cls attrs kids IH|id nodeType] using Node_tree_ind.
  - cbn [inside_nodes]. set (self := Element id name cls attrs kids).
    rewrite List.Forall_forall in IH.
    destruct (matches a self) eqn:Hself.
    + split.
      * intros Hv. exists self. split; [apply nodes_self|]. split; assumption.
      * intros (region & Hregion & _ & Hv).
        cbn [nodes] in Hregion. destruct Hregion as [<-|Hregion]; [exact Hv|].
        apply in_concat in Hregion as (l & Hl & Hregion).
        apply in_map_iff in Hl as (kid & <- & Hkid).
        apply in_concat. exists (nodes kid). split; [apply in_map, Hkid|].
        apply (nodes_trans kid region v Hregion).
        rewrite nodes_children. right. exact Hv.
    + split.
      * intros Hv. apply in_concat in Hv as (l & Hl & Hv).
        apply in_map_iff in Hl as (kid & <- & Hkid).
        apply (IH kid Hkid) in Hv as (region & Hregion & Hmatch & Hv).
        exists region. split; [|split; assumption].
        cbn [nodes]. right. apply in_concat. exists (nodes kid).
        split; [apply in_map, Hkid | exact Hregion].
      * intros (region & Hregion & Hmatch & Hv).
        cbn [nodes] in Hregion. destruct Hregion as [<-|Hregion];
          [unfold self in Hself; congruence|].
        apply in_concat in Hregion as (l & Hl & Hregion).
        apply in_map_iff in Hl as (kid & <- & Hkid).
        apply in_concat. exists (inside_nodes a kid).
        split; [apply in_map, Hkid|].
        apply (IH kid Hkid). exists region. split; [|split]; assumption.
  - cbn [inside_nodes nodes]. split; [intros []|].
    intros (region & [<-|[]] & Hmatch & _). discriminate Hmatch.
Qed.

Lemma inside_nodes_nodes (a : Compound) (n v : Node) :
  In v (inside_nodes a n) -> In v (nodes n).
Proof.
  intros Hv. apply inside_nodes_In in Hv as (region & Hregion & _ & Hv).
  apply (nodes_trans n region v Hregion).
  rewrite nodes_children. right. exact Hv.
Qed.

Lemma is_video_node_element (n : Node) : is_video_node n = true -> is_element n = true.
Proof. destruct n; [reflexivity | discriminate]. Qed.

Lemma matches_vjs_tech (n : Node) :
  matches (subject sel_vjs_tech) n = marked_video n.
Proof.
  unfold matches, marked_video. destruct n; [|reflexivity].
  cbn. rewrite andb_true_r. reflexivity.
Qed.

Lemma matches_video (n : Node) : matches (subject sel_video) n = is_video_node n.
Proof.
  unfold matches, is_video_node. destruct n; [|reflexivity].
  cbn. rewrite !andb_true_r. reflexivity.
Qed.

Lemma matches_preload_auto (n : Node) :
  matches (subject sel_preload_auto) n = preload_video n.
Proof.
  unfold matches, preload_video, is_video_node. destruct n; [|reflexivity].
  cbn. rewrite andb_true_r. reflexivity.
Qed.

Lemma matches_player_region (n : Node) :
  matches player_region n = has_attr ("data-purpose", "video-player") n.
Proof. unfold matches. destruct n; reflexivity. Qed.

Context {num : Type} `{JsNumber num}.

(** The candidates of the four selectors, read off the tree. *)
Lemma locator_candidates (w : World num) :
  querySelectorAll (document w) sel_vjs_tech
  = List.filter marked_video (nodes (document w))
  /\ querySelectorAll (document w) sel_player_video
     = List.filter is_video_node (inside_nodes player_region (document w))
  /\ querySelectorAll (document w) sel_preload_auto
     = List.filter preload_video (nodes (document w))
  /\ querySelectorAll (document w) sel_video
     = List.filter is_video_node (nodes (document w)).
Proof.
  unfold querySelectorAll, sel_vjs_tech, sel_player_video, sel_preload_auto,
    sel_video.
  rewrite !select_Sel, (select_Desc player_region).
  split; [apply List.filter_ext, matches_vjs_tech|].
  split; [apply List.filter_ext, matches_video|].
  split; [apply List.filter_ext, matches_preload_auto|].
  apply List.filter_ext, matches_video.
Qed.

(** The locator, strategy by strategy, on the candidates read off the
    tree. *)
Lemma findVideoElement_strategies (w : World num) :
  findVideoElement w
  = option_map node_id
      match List.filter marked_video (nodes (document w)) with
      | v :: _ => Some v
      | [] =>
      match List.filter is_video_node
              (inside_nodes player_region (document w)) with
      | v :: _ => Some v
      | [] =>
      match List.filter preload_video (nodes (document w)) with
      | v :: _ => Some v
      | [] =>
          let videos := List.filter is_video_node (nodes (document w)) in
          match List.find (fun v => is_active w (node_id v)) videos with
          | Some v => Some v
          | None => head videos
          end
      end end end.
Proof.
  unfold findVideoElement, querySelector.
  destruct (locator_candidates w) as (-> & -> & -> & ->).
  destruct (List.filter marked_video _) as [|v1 ?]; [|reflexivity].
  destruct (List.filter is_video_node (inside_nodes _ _)) as [|v2 ?];
    [|reflexivity].
  destruct (List.filter preload_video _) as [|v3 ?]; [|reflexivity].
  cbn [head]. cbv zeta.
  destruct (List.filter is_video_node _) as [|v [|v' vs]]; try reflexivity.
  cbn [length Nat.eqb head List.find].
  destruct (is_active w (node_id v)); reflexivity.
Qed.

Lemma filter_none {A} (p : A -> bool) (l : list A) :
  (forall x, In x l -> p x = false) -> List.filter p l = [].
Proof.
  induction l as [|x l IH]; intros Hnone; cbn; [reflexivity|].
  rewrite (Hnone x (or_introl eq_refl)). apply IH.
  intros y Hy. apply Hnone. right. exact Hy.
Qed.

Lemma find_none_all {A} (p : A -> bool) (l : list A) :
  (forall x, In x l -> p x = false) -> List.find p l = None.
Proof.
  induction l as [|x l IH]; intros Hnone; cbn; [reflexivity|].
  rewrite (Hnone x (or_introl eq_refl)). apply IH.
  intros y Hy. apply Hnone. right. exact Hy.
Qed.

Lemma find_first {A} (p : A -> bool) (before after : list A) (x : A) :
  (forall y, In y before -> p y = false) -> p x = true ->
  List.find p (before ++ x :: after) = Some x.
Proof.
  induction before as [|y before IH]; intros Hnone Hx; cbn.
  - rewrite Hx. reflexivity.
  - rewrite (Hnone y (or_introl eq_refl)). apply IH; [|exact Hx].
    intros z Hz. apply Hnone. right. exact Hz.
Qed.

Lemma is_video_node_name (n : Node) :
  is_video_node n = true <-> node_name n = "video".
Proof.
  unfold is_video_node. rewrite String.eqb_eq. split; intros Heq; congruence.
Qed.

(** Whatever the locator returns is one of the document's video elements. *)
Lemma findVideoElement_found (w : World num) (r : ref) :
  findVideoElement w = Some r ->
  exists n, In n (List.filter is_video_node (nodes (document w)))
            /\ node_id n = r.
Proof.
  rewrite findVideoElement_strategies.
  destruct (List.filter marked_video _) as [|v1 l1] eqn:H1.
  2: { intros [= <-]. exists v1. split; [|reflexivity].
       assert (In v1 (List.filter marked_video (nodes (document w)))) as Hin
         by (rewrite H1; left; reflexivity).
       apply filter_In in Hin as [Hin Hmarked]. apply filter_In.
       split; [exact Hin|]. apply andb_prop in Hmarked. apply Hmarked. }
  destruct (List.filter is_video_node (inside_nodes _ _)) as [|v2 l2] eqn:H2.
  2: { intros [= <-]. exists v2. split; [|reflexivity].
       assert (In v2 (List.filter is_video_node
                        (inside_nodes player_region (document w)))) as Hin
         by (rewrite H2; left; reflexivity).
       apply filter_In in Hin as [Hin Hvideo]. apply filter_In.
       split; [|exact Hvideo]. apply (inside_nodes_nodes _ _ _ Hin). }
  destruct (List.filter preload_video _) as [|v3 l3] eqn:H3.
  2: { intros [= <-]. exists v3. split; [|reflexivity].
       assert (In v3 (List.filter preload_video (nodes (document w)))) as Hin
         by (rewrite H3; left; reflexivity).
       apply filter_In in Hin as [Hin Hpre]. apply filter_In.
       split; [exact Hin|]. apply andb_prop in Hpre. apply Hpre. }
  cbv zeta.
  destruct (List.find _ _) as [v|] eqn:Hfind.
  - intros [= <-]. exists v. split; [|reflexivity].
    apply (find_some _ _ Hfind).
  - destruct (List.filter is_video_node (nodes (document w))) as [|v vs];
      [intros [=]|].
    intros [= <-]. exists v. split; [left|]; reflexivity.
Qed.

(** On a document with a video element the locator returns something. *)
Lemma findVideoElement_some (w : World num) (n : Node) :
  In n (nodes (document w)) ->
  node_name n = "video" ->
  exists r, findVideoElement w = Some r.
Proof.
  intros Hn Hname. rewrite findVideoElement_strategies.
  destruct (List.filter marked_video _); [|cbn; eauto].
  destruct (List.filter is_video_node (inside_nodes _ _)); [|cbn; eauto].
  destruct (List.filter preload_video _); [|cbn; eauto].
  cbv zeta.
  assert (In n (List.filter is_video_node (nodes (document w)))) as Hin.
  { apply filter_In. split; [exact Hn|]. apply is_video_node_name, Hname. }
  destruct (List.filter is_video_node (nodes (document w))) as [|v vs];
    [destruct Hin|].
  destruct (List.find _ _); cbn; eauto.
Qed.

(** C6.  The locator tries its strategies in priority order, first match
    winning.
    - If the document contains a video element carrying the player-library
      marker class, the locator returns a marked video (the first one in
      document order), whatever unmarked videos the document also contains
      and whatever their state; when that marked video is the only marked
      one, it is the one returned.
    - If the document contains no video element, the locator returns none.
    - Without a marked video, the first video inside a player region (an
      element with [data-purpose="video-player"]) is returned, wherever
      other videos are; without one of those, the first video with
      [preload="auto"]; without one of those either, the only video when
      there is exactly one, else the first video that is active, else the
      first video of the document.  A video is active when its [readyState]
      or its [currentTime] is above 0 or it is not paused; a video is inside
      a player region when it lies below such an element, at any depth. *)
Theorem locator_priority (w : World num) :
  (forall marked,
     In marked (nodes (document w)) ->
     node_name marked = "video" ->
     has_class "vjs-tech" marked = true ->
     findVideoElement w
     = head (map node_id (List.filter marked_video (nodes (document w))))
     /\ (exists found,
           findVideoElement w = Some (node_id found)
           /\ In found (nodes (document w))
           /\ node_name found = "video"
           /\ has_class "vjs-tech" found = true)
     /\ ((forall other,
            In other (nodes (document w)) -> marked_video other = true ->
            node_id other = node_id marked) ->
         findVideoElement w = Some (node_id marked)))
  /\ ((forall n, In n (nodes (document w)) -> node_name n <> "video") ->
      findVideoElement w = None)
  /\ (List.filter marked_video (nodes (document w)) = [] ->
      let in_player :=
        List.filter is_video_node (inside_nodes player_region (document w)) in
      let preloading := List.filter preload_video (nodes (document w)) in
      let videos := List.filter is_video_node (nodes (document w)) in
      (forall v rest,
         in_player = v :: rest -> findVideoElement w = Some (node_id v))
      /\ (in_player = [] ->
          (forall v rest,
             preloading = v :: rest -> findVideoElement w = Some (node_id v))
          /\ (preloading = [] ->
              (forall v, videos = [v] -> findVideoElement w = Some (node_id v))
              /\ (forall before v after,
                    videos = before ++ v :: after ->
                    (forall u, In u before -> is_active w (node_id u) = false) ->
                    is_active w (node_id v) = true ->
                    findVideoElement w = Some (node_id v))
              /\ (forall v rest,
                    videos = v :: rest ->
                    (forall u, In u videos -> is_active w (node_id u) = false) ->
                    findVideoElement w = Some (node_id v)))))
  /\ (forall v,
        In v (inside_nodes player_region (document w))
        <-> exists region,
              In region (nodes (document w))
              /\ has_attr ("data-purpose", "video-player") region = true
              /\ In v (concat (map nodes (node_children region))))
  /\ (forall v,
        is_active w v = true
        <-> (0 < readyState (deref w v))%nat
            \/ js_lt (of_Z 0) (currentTime (deref w v)) = true
            \/ paused (deref w v) = false).
Proof.
  split; [|split; [|split; [|split]]].
  - intros marked Hin Hname Hclass.
    assert (In marked (List.filter marked_video (nodes (document w)))) as Hmarked.
    { apply filter_In. split; [exact Hin|].
      unfold marked_video. rewrite Hname, Hclass. reflexivity. }
    assert (findVideoElement w
            = head (map node_id (List.filter marked_video (nodes (document w)))))
      as Hfirst.
    { rewrite findVideoElement_strategies.
      destruct (List.filter marked_video (nodes (document w))) as [|found rest];
        [destruct Hmarked | reflexivity]. }
    split; [exact Hfirst|].
    rewrite Hfirst.
    destruct (List.filter marked_video (nodes (document w)))
      as [|found rest] eqn:Hfilter; [destruct Hmarked|].
    assert (In found (List.filter marked_video (nodes (document w)))) as Hfound
      by (rewrite Hfilter; left; reflexivity).
    apply filter_In in Hfound as [Hfound_in Hfound_marked].
    split.
    + exists found. split; [reflexivity|]. split; [exact Hfound_in|].
      unfold marked_video in Hfound_marked.
      apply andb_prop in Hfound_marked as [Hvideo Hcls].
      apply String.eqb_eq in Hvideo. split; [symmetry; exact Hvideo | exact Hcls].
    + intros Honly. cbn. f_equal. apply Honly; assumption.
  - intros Hnone.
    destruct (findVideoElement w) as [r|] eqn:Hfound; [|reflexivity].
    apply findVideoElement_found in Hfound as (n & Hn & _).
    apply filter_In in Hn as [Hn Hvideo].
    apply is_video_node_name in Hvideo. destruct (Hnone n Hn Hvideo).
  - intros Hunmarked. cbv zeta. rewrite findVideoElement_strategies, Hunmarked.
    split; [intros v rest ->; reflexivity|].
    intros ->. split; [intros v rest ->; reflexivity|].
    intros ->. cbv zeta. split; [|split].
    + intros v ->. cbn [List.find head].
      destruct (is_active w (node_id v)); reflexivity.
    + intros before v after -> Hidle Hactive.
      rewrite (find_first _ before after v Hidle Hactive). reflexivity.
    + intros v rest -> Hidle.
      rewrite (find_none_all _ _ Hidle). reflexivity.
  - intros v. rewrite inside_nodes_In.
    split; intros (region & Hregion & Hmatch & Hv); exists region;
      (split; [exact Hregion|]; split; [|exact Hv]);
      [rewrite <- matches_player_region | rewrite matches_player_region];
      exact Hmatch.
  - intros v. unfold is_active.
    rewrite !orb_true_iff, Nat.ltb_lt, negb_true_iff. tauto.
Qed.

End Locator.

Lemma locator_priority_witness :
  findVideoElement (two_video_world (num:=float)) = Some 3%nat
  /\ findVideoElement (world_of empty_document ∅ (initial_state (num:=float)))
     = None
  /\ findVideoElement
       (world_of (two_plain_videos [("data-purpose", "video-player")] [])
          {[ 2%nat := playing_at (float_of_Z 1) ]} initial_state)
     = Some 3%nat
  /\ findVideoElement
       (world_of (two_plain_videos [] [("preload", "auto")])
          {[ 2%nat := playing_at (float_of_Z 1) ]} initial_state)
     = Some 3%nat
  /\ findVideoElement
       (world_of (two_plain_videos [] [])
          {[ 3%nat := playing_at (float_of_Z 1) ]} initial_state)
     = Some 3%nat
  /\ findVideoElement
       (world_of (two_plain_videos [] []) ∅ (initial_state (num:=float)))
     = Some 2%nat.
Proof.
  split.
  { destruct (locator_priority (two_video_world (num:=float))) as [Hmarked _].
    destruct (Hmarked (video_el 3 ["vjs-tech"] [])) as (_ & _ & Honly).
    + cbn. tauto.
    + reflexivity.
    + reflexivity.
    + apply Honly. intros other Hother Hmark. cbn in Hother.
      destruct Hother as [<-|[<-|[<-|[<-|[<-|[]]]]]];
        (reflexivity || discriminate Hmark). }
  split.
  { destruct (locator_priority
                (world_of empty_document ∅ (initial_state (num:=float))))
      as (_ & Hnone & _).
    apply Hnone. intros n Hn. cbn in Hn.
    destruct Hn as [<-|[<-|[]]]; discriminate. }
  split.
  { destruct (locator_priority
                (world_of (two_plain_videos [("data-purpose", "video-player")] [])
                   {[ 2%nat := playing_at (float_of_Z 1) ]} initial_state))
      as (_ & _ & Hlater & _).
    destruct (Hlater eq_refl) as [Hplayer _].
    apply (Hplayer (video_el 3 [] []) []). reflexivity. }
  split.
  { destruct (locator_priority
                (world_of (two_plain_videos [] [("preload", "auto")])
                   {[ 2%nat := playing_at (float_of_Z 1) ]} initial_state))
      as (_ & _ & Hlater & _).
    destruct (Hlater eq_refl) as [_ Hnext].
    destruct (Hnext eq_refl) as [Hpreload _].
    apply (Hpreload (video_el 3 [] [("preload", "auto")]) []). reflexivity. }
  split.
  { destruct (locator_priority
                (world_of (two_plain_videos [] [])
                   {[ 3%nat := playing_at (float_of_Z 1) ]} initial_state))
      as (_ & _ & Hlater & _).
    destruct (Hlater eq_refl) as [_ Hnext].
    destruct (Hnext eq_refl) as [_ Hlast].
    destruct (Hlast eq_refl) as (_ & Hactive & _).
    apply (Hactive [video_el 2 [] []] (video_el 3 [] []) []).
    - reflexivity.
    - intros u [<-|[]]. vm_compute. reflexivity.
    - vm_compute. reflexivity. }
  destruct (locator_priority
              (world_of (two_plain_videos [] []) ∅ (initial_state (num:=float))))
    as (_ & _ & Hlater & _).
  destruct (Hlater eq_refl) as [_ Hnext].
  destruct (Hnext eq_refl) as [_ Hlast].
  destruct (Hlast eq_refl) as (_ & _ & Hfirst).
  apply (Hfirst (video_el 2 [] []) [video_el 3 [] []]).
  - reflexivity.
  - intros u [<-|[<-|[]]]; vm_compute; reflexivity.
Defined.

(** In the two-video page the unmarked video comes first and is playing, the
    marked one is idle: without the marked one the locator would pick the
    playing video, with it the marked one wins. *)
Example locator_on_two_videos :
  findVideoElement (two_video_world (num:=float)) = Some 3%nat
  /\ findVideoElement
       (set_document (Element 0 "html" [] []
                        [Element 1 "body" [] []
                           [video_el 2 [] [];
                            Element 5 "div" [] [] [video_el 3 [] []]]])
                     (two_video_world (num:=float)))
     = Some 2%nat.
Proof. split; vm_compute; reflexivity. Qed.

(** ** Scenarios D and E of the specification, in binary64 *)

(** Scenario D: Shift+5 asks for the explicit rate 1.5, whatever the video is
    playing at. *)
Example scenario_D :
  keydown_calls (num:=float) (key "Digit5" true false false)
  = [(explicit (hundredths 150), no_options)]
  /\ playbackRate
       (deref (keydown (key "Digit5" true false false)
                 (lesson_world (hundredths 275))) 3%nat)
     = hundredths 150.
Proof. split; vm_compute; reflexivity. Qed.

(** Scenario E: the persisted rate 1.35 survives a page reload.  The script
    starts on the new page, finds the new video element and attaches to it;
    on the element's first [canplay] its rate becomes 1.35.  When the host
    page then resets the rate to 1.0 and [ratechange] fires, the store still
    holds 1.35, and the next [playing] event puts 1.35 back on the element. *)
Example scenario_E :
  let attached := initialize (reloaded_world (hundredths 135)) in
  let ready := dispatchEvent 3%nat "canplay" attached in
  let reset :=
    dispatchEvent 3%nat "ratechange"
      (write_playbackRate 3%nat (float_of_Z 1) ready) in
  let resumed := dispatchEvent 3%nat "playing" reset in
  currentVideo (state attached) = Some 3%nat
  /\ playbackRate (deref attached 3%nat) = float_of_Z 1
  /\ playbackRate (deref ready 3%nat) = hundredths 135
  /\ playbackRate (deref reset 3%nat) = float_of_Z 1
  /\ udemy_playback_rate (storage reset) = Some (hundredths 135)
  /\ playbackRate (deref resumed 3%nat) = hundredths 135.
Proof. cbv zeta. repeat split; vm_compute; reflexivity. Qed.

(** ** More on the video locator *)

Section LocatorMore.
Context {num : Type} `{JsNumber num}.

(** X1.  Whatever the locator returns is a [video] element that is in the
    document: it never returns another kind of element, nor an element that
    has left the document. *)
Theorem locator_returns_document_video (w : World num) (r : ref) :
  findVideoElement w = Some r ->
  exists n, In n (nodes (document w)) /\ node_name n = "video" /\ node_id n = r.
Proof.
  intros Hfound.
  destruct (findVideoElement_found w r Hfound) as (n & Hn & Hid).
  apply filter_In in Hn as [Hn Hvideo].
  exists n. split; [exact Hn|]. split; [|exact Hid].
  apply is_video_node_name, Hvideo.
Qed.

(** X2.  The locator fails only on a document without video elements: as
    soon as the document contains a [video] element, in whatever place and
    state, some video is returned. *)
Theorem locator_finds_any_video (w : World num) (n : Node) :
  In n (nodes (document w)) ->
  node_name n = "video" ->
  exists r, findVideoElement w = Some r.
Proof. apply findVideoElement_some. Qed.

(** X3.  When the document contains exactly one [video] element, the locator
    returns it, whether or not it carries the marker class, sits in the
    player region, preloads or is active. *)
Theorem locator_single_video (w : World num) (v : Node) :
  List.filter is_video_node (nodes (document w)) = [v] ->
  findVideoElement w = Some (node_id v).
Proof.
  intros Honly.
  assert (In v (List.filter is_video_node (nodes (document w)))) as Hv
    by (rewrite Honly; left; reflexivity).
  apply filter_In in Hv as [Hv Hvideo].
  destruct (findVideoElement_some w v Hv) as [r Hfound];
    [apply is_video_node_name, Hvideo|].
  rewrite Hfound. f_equal.
  destruct (findVideoElement_found w r Hfound) as (n & Hn & <-).
  rewrite Honly in Hn. destruct Hn as [->|[]]. reflexivity.
Qed.

End LocatorMore.

Lemma locator_returns_document_video_witness :
  exists n, In n (nodes (document (two_video_world (num:=float))))
            /\ node_name n = "video" /\ node_id n = 3%nat.
Proof.
  apply (locator_returns_document_video (two_video_world (num:=float)) 3%nat).
  reflexivity.
Defined.

Lemma locator_finds_any_video_witness :
  exists r, findVideoElement (two_video_world (num:=float)) = Some r.
Proof.
  apply (locator_finds_any_video (two_video_world (num:=float))
           (video_el 2 [] [])).
  - cbn. tauto.
  - reflexivity.
Defined.

Lemma locator_single_video_witness :
  findVideoElement (lesson_world (float_of_Z 1)) = Some 3%nat.
Proof.
  apply (locator_single_video (lesson_world (float_of_Z 1))
           (video_el 3 ["vjs-tech"] [("preload", "auto")])).
  reflexivity.
Defined.

(** ** More on the keyboard interpreter *)

Section KeyboardMore.
Context {num : Type} `{JsNumber num}.

Lemma keydown_no_calls (event : KeyboardEvent) (w : World num) :
  keydown_calls (num:=num) event = [] -> keydown event w = w.
Proof. intros Hcalls. unfold keydown. rewrite Hcalls. reflexivity. Qed.

(** X4.  The listener does nothing at all while the user types or when Shift
    is not held: for a target that is an [INPUT], a [TEXTAREA] or editable
    content, and for any key pressed without Shift, no [setPlaybackRate] call
    is made and the page, the store, the console and the screen are as
    before. *)
Theorem keydown_ignored (event : KeyboardEvent) (w : World num) :
  target_tagName event = "INPUT" \/ target_tagName event = "TEXTAREA"
  \/ target_isContentEditable event = true \/ shiftKey event = false ->
  keydown_calls (num:=num) event = [] /\ keydown event w = w.
Proof.
  intros Hskip.
  assert (keydown_calls (num:=num) event = []) as Hcalls.
  { unfold keydown_calls.
    destruct Hskip as [Htag|[Htag|[Hedit|Hshift]]].
    - rewrite Htag. reflexivity.
    - rewrite Htag. cbn. reflexivity.
    - rewrite Hedit, !orb_true_r. reflexivity.
    - rewrite Hshift, !andb_false_r. cbn.
      destruct (_ || _ || _); reflexivity. }
  split; [exact Hcalls | apply keydown_no_calls, Hcalls].
Qed.

(** X5.  The shortcuts exclude one another: whatever the event, the listener
    makes at most one [setPlaybackRate] call. *)
Theorem keydown_at_most_one_call (event : KeyboardEvent) :
  length (keydown_calls (num:=num) event) <= 1.
Proof.
  unfold keydown_calls.
  destruct (_ || _ || target_isContentEditable event); [cbn; lia|].
  set (preset := match parseInt _ with Some _ => _ | None => _ end).
  assert (length preset <= 1) as Hpreset.
  { unfold preset.
    repeat match goal with
           | |- context [match ?c with Some _ => _ | None => _ end] => destruct c
           | |- context [if ?c then _ else _] => destruct c
           end; cbn; lia. }
  destruct (String.eqb_spec (code event) "ArrowRight") as [Hright|_].
  - rewrite Hright in *. cbn.
    destruct (shiftKey event), (ctrlKey event), (altKey event); cbn; lia.
  - destruct (String.eqb_spec (code event) "ArrowLeft") as [Hleft|_].
    + rewrite Hleft in *. cbn.
      destruct (shiftKey event), (ctrlKey event), (altKey event); cbn; lia.
    + cbn. destruct (_ && _ && _ && _); cbn; lia.
Qed.

(** X6.  The only numeric rates the keyboard ever requests are the nine of
    the preset table, requested without options. *)
Theorem keydown_explicit_from_table (event : KeyboardEvent) (rate : num)
    (options : Options) :
  In (explicit rate, options) (keydown_calls event) ->
  In rate speedMap /\ options = no_options.
Proof.
  unfold keydown_calls. intros Hin.
  destruct (_ || _ || target_isContentEditable event); [destruct Hin|].
  rewrite !in_app_iff in Hin.
  destruct Hin as [Hin|[Hin|[Hin|[Hin|Hin]]]].
  1-4: match type of Hin with
       | In _ (if ?c then _ else _) => destruct c
       end; [destruct Hin as [Heq|[]]; discriminate Heq | destruct Hin].
  destruct (_ && _ && _ && _); [|destruct Hin].
  destruct (parseInt _) as [n|]; [|destruct Hin].
  destruct (_ && _)%bool; [|destruct Hin].
  destruct (speedMap !! Z.to_nat (n - 1)) as [speed|] eqn:Hspeed; [|destruct Hin].
  destruct (truthy speed); [|destruct Hin].
  destruct Hin as [Heq|[]]. injection Heq as <- <-.
  split; [|reflexivity].
  apply list_elem_of_In. eapply list_elem_of_lookup_2. exact Hspeed.
Qed.

End KeyboardMore.

Lemma keydown_ignored_witness :
  let event := {| code := "ArrowRight"; shiftKey := true; ctrlKey := false;
                  altKey := false; target_tagName := "TEXTAREA";
                  target_isContentEditable := false |} in
  keydown_calls (num:=float) event = []
  /\ keydown event (lesson_world (float_of_Z 1)) = lesson_world (float_of_Z 1).
Proof.
  apply (keydown_ignored
           {| code := "ArrowRight"; shiftKey := true; ctrlKey := false;
              altKey := false; target_tagName := "TEXTAREA";
              target_isContentEditable := false |}
           (lesson_world (float_of_Z 1))).
  right. left. reflexivity.
Defined.

Lemma keydown_explicit_from_table_witness :
  In (hundredths 150 : float) speedMap /\ no_options = no_options.
Proof.
  apply (keydown_explicit_from_table (key "Digit5" true false false)
           (hundredths 150 : float) no_options).
  left. reflexivity.
Defined.

(** X7.  Shift+digit, pressed outside editable targets without Ctrl or Alt,
    asks for entry [d - 1] of the preset table for the digits 1 to 9 and for
    nothing for the digit 0 (binary64). *)
Theorem preset_digits (event : KeyboardEvent) (d : nat) :
  target_tagName event <> "INPUT" ->
  target_tagName event <> "TEXTAREA" ->
  target_isContentEditable event = false ->
  shiftKey event = true -> ctrlKey event = false -> altKey event = false ->
  d <= 9 ->
  code event = String.append "Digit" (String (Ascii.ascii_of_nat (48 + d)) "") ->
  keydown_calls (num:=float) event =
    match d with
    | O => []
    | S i => [(explicit (nth i speedMap (float_of_Z 0)), no_options)]
    end.
Proof.
  intros Hinput Htextarea Hedit Hshift Hctrl Halt Hd Hcode.
  unfold keydown_calls.
  apply String.eqb_neq in Hinput, Htextarea.
  rewrite Hinput, Htextarea, Hedit, Hshift, Hctrl, Halt, Hcode.
  do 10 (destruct d as [|d]; [vm_compute; reflexivity|]). lia.
Qed.

Lemma preset_digits_witness :
  keydown_calls (num:=float) (key "Digit9" true false false)
  = [(explicit (nth 8 speedMap (float_of_Z 0)), no_options)].
Proof.
  apply (preset_digits (key "Digit9" true false false) 9);
    (discriminate || reflexivity || lia).
Defined.

(** ** What a successful [setPlaybackRate] leaves behind *)

Section Finite.

(** In binary64 the finite numbers are the zeros and the values with a
    mantissa and an exponent: [is_finite] is false on NaN and on the two
    infinities, and on nothing else. *)
Lemma is_finite_binary64 (x : float) :
  is_finite x
  = match Prim2SF x with
    | S754_zero _ | S754_finite _ _ _ => true
    | S754_nan | S754_infinity _ => false
    end.
Proof.
  unfold is_finite. cbn [js_eq js_sub of_Z float_JsNumber float_of_Z].
  rewrite FloatAxioms.eqb_spec, FloatAxioms.sub_spec.
  destruct (Prim2SF x) as [s|s| |s m e]; try (destruct s; reflexivity);
    [reflexivity|].
  unfold SF64sub, SFsub.
  replace (Z.min e e) with e by lia.
  unfold shl_align. rewrite Z.sub_diag. cbn [fst].
  reflexivity.
Qed.

End Finite.

Section Consistency.
Context {num : Type} `{JsNumber num}.

Lemma descendants_select (c : Compound) (n : Node) :
  concat (map (select (Sel c) false) (node_children n))
  = List.filter (matches c) (tail (nodes n)).
Proof.
  rewrite nodes_children. cbn [tail]. rewrite filter_concat, map_map.
  apply concat_map_ext_Forall, List.Forall_forall.
  intros k _. apply select_Sel.
Qed.

Lemma takes_rate_text_spec (child : Node) :
  takes_rate_text child = true
  <-> (exists id, child = CharacterData id TEXT_NODE)
      \/ (is_element child = true /\ node_name child = "span").
Proof.
  destruct child as [id name cls attrs kids|id nodeType];
    cbn [takes_rate_text is_element node_name].
  - rewrite String.eqb_eq. split.
    + intros ->. right. split; reflexivity.
    + intros [[id' Heq]|[_ Hname]]; [discriminate Heq | exact Hname].
  - rewrite Nat.eqb_eq. split.
    + intros ->. left. exists id. reflexivity.
    + intros [[id' Heq]|[Hel _]]; [|discriminate Hel].
      injection Heq as _ ->. reflexivity.
Qed.

(** The node that [updateRateDisplay] writes to, read off the tree. *)
Lemma rateDisplay_target_nodes (document : Node) :
  rateDisplay_target document
  = match List.find (matches (subject sel_rate_button)) (nodes document) with
    | Some rateButton =>
        let textEl :=
          default rateButton
            (List.find (matches sel_span) (tail (nodes rateButton))) in
        match node_children textEl with
        | [] => Some textEl
        | childNodes => List.find takes_rate_text childNodes
        end
    | None => None
    end.
Proof.
  unfold rateDisplay_target, querySelector, querySelectorAll, sel_rate_button,
    element_querySelector.
  rewrite select_Sel, head_filter. cbn [subject].
  destruct (List.find _ (nodes document)) as [rateButton|]; [|reflexivity].
  rewrite descendants_select, head_filter. reflexivity.
Qed.

(** [updateRateDisplay] writes the label exactly when the rate button has a
    place for it. *)
Lemma rateDisplay_target_spec (document : Node) :
  rate_button_takes_label document <-> rateDisplay_target document <> None.
Proof.
  rewrite rateDisplay_target_nodes. unfold rate_button_takes_label.
  split.
  - intros (rateButton & -> & Hslot). cbv zeta in Hslot |- *.
    destruct Hslot as [->|(child & Hchild & Hkind)]; [discriminate|].
    apply takes_rate_text_spec in Hkind.
    destruct (node_children _) as [|k ks] eqn:Hkids; [discriminate|].
    intros Hnone.
    pose proof (find_none _ _ Hnone child Hchild) as Hno. congruence.
  - destruct (List.find _ (nodes document)) as [rateButton|];
      [|intros Hno; destruct (Hno eq_refl)].
    cbv zeta. intros Hsome. exists rateButton. split; [reflexivity|].
    destruct (node_children _) as [|k ks] eqn:Hkids; [left; reflexivity|].
    right.
    destruct (List.find takes_rate_text (k :: ks)) as [child|] eqn:Hfind;
      [|destruct (Hsome eq_refl)].
    apply find_some in Hfind as [Hchild Hkind].
    exists child. split; [exact Hchild|].
    apply takes_rate_text_spec, Hkind.
Qed.

(** X8.  A call that finds a video and arrives at a rate that is a finite
    number (the element refuses any other) leaves that rate everywhere: on the
    element, in the store, in the toast and in the log line.  The label of
    the host page's rate button is rewritten exactly when the button has a
    place for it: with a text node or a [span] at hand it is, with an icon
    only or without a button it is not.  No other video element is touched,
    the video keeps its other properties and listeners, the script keeps
    the video as its handle, and the configuration is as before. *)
Theorem setPlaybackRate_consistent (w : World num) (rate : RateArg num)
    (options : Options) (video : ref) :
  currentVideo_or_find w = Some video ->
  let r := targetRate (config (state w)) (playbackRate (deref w video))
                      rate options in
  is_finite r = true ->
  let w' := setPlaybackRate rate options w in
  playbackRate (deref w' video) = r
  /\ udemy_playback_rate (storage w') = Some r
  /\ console w' = console w ++ [Speed_set_to r]
  /\ (rate_button_takes_label (document w) ->
      screen w' = screen w ++ [RateDisplay r; Toast r])
  /\ (~ rate_button_takes_label (document w) ->
      screen w' = screen w ++ [Toast r])
  /\ (forall other, other <> video -> heap w' !! other = heap w !! other)
  /\ readyState (deref w' video) = readyState (deref w video)
  /\ currentTime (deref w' video) = currentTime (deref w video)
  /\ paused (deref w' video) = paused (deref w video)
  /\ listeners (deref w' video) = listeners (deref w video)
  /\ _superlearnerAttached (deref w' video)
     = _superlearnerAttached (deref w video)
  /\ currentVideo (state w') = Some video
  /\ config (state w') = config (state w).
Proof.
  intros Hvideo r _. cbv zeta.
  pose proof (rateDisplay_target_spec (document w)) as Hslot.
  unfold setPlaybackRate. rewrite Hvideo.
  unfold showSpeedToast, updateRateDisplay.
  cbn [document savePlaybackRate write_playbackRate write_currentVideo
       set_heap set_state set_storage].
  fold r.
  destruct (rateDisplay_target (document w)) as [node|]; cbn;
    unfold deref; cbn; rewrite ?lookup_insert_eq; cbn;
    (split; [reflexivity|]); (split; [reflexivity|]);
    (split; [reflexivity|]).
  - split; [intros _; rewrite <- app_assoc; reflexivity|].
    split; [intros Hno; destruct Hno; apply Hslot; discriminate|].
    split; [intros other Hother; apply lookup_insert_ne; congruence|].
    repeat split.
  - split; [intros Hyes; apply Hslot in Hyes; destruct (Hyes eq_refl)|].
    split; [intros _; reflexivity|].
    split; [intros other Hother; apply lookup_insert_ne; congruence|].
    repeat split.
Qed.

End Consistency.

Lemma setPlaybackRate_consistent_witness :
  let w := lesson_world (float_of_Z 1) in
  let w' := setPlaybackRate increase fine_options w in
  let icon :=
    world_of icon_button_document {[ 3%nat := playing_at (float_of_Z 1) ]}
      initial_state in
  playbackRate (deref w' 3%nat) = hundredths 105
  /\ udemy_playback_rate (storage w') = Some (hundredths 105)
  /\ console w' = [Speed_set_to (hundredths 105)]
  /\ screen w' = [RateDisplay (hundredths 105); Toast (hundredths 105)]
  /\ screen (setPlaybackRate increase fine_options icon)
     = [Toast (hundredths 105)].
Proof.
  cbv zeta.
  destruct (setPlaybackRate_consistent (lesson_world (float_of_Z 1)) increase
              fine_options 3%nat eq_refl)
    as (Hrate & Hstored & Hlog & Hlabel & _); [vm_compute; reflexivity|].
  split; [exact Hrate|]. split; [exact Hstored|]. split; [exact Hlog|].
  split.
  { apply Hlabel.
    exists (Element 4 "button" [] [("data-purpose", "playback-rate-button")]
              [Element 8 "span" [] [] [CharacterData 9 TEXT_NODE]]).
    split; [reflexivity|]. right.
    exists (CharacterData 9 TEXT_NODE). split; [left; reflexivity|].
    left. exists 9%nat. reflexivity. }
  destruct (setPlaybackRate_consistent
              (world_of icon_button_document
                 {[ 3%nat := playing_at (float_of_Z 1) ]} initial_state)
              increase fine_options 3%nat eq_refl)
    as (_ & _ & _ & _ & Hicon & _); [vm_compute; reflexivity|].
  apply Hicon.
  intros (rateButton & Hbutton & Hslot).
  vm_compute in Hbutton. injection Hbutton as <-.
  cbv zeta in Hslot. cbn in Hslot.
  destruct Hslot as [Hempty|(child & [<-|[]] & [[id Htext]|[_ Hname]])];
    discriminate.
Defined.

(** ** The keyboard steps on the default range, in binary64 *)

Section DefaultGrid.

Lemma default_grid_spec (k : Z) : (50 <= k <= 300)%Z <-> In k default_grid.
Proof.
  unfold default_grid. rewrite in_map_iff. split.
  - intros Hk. exists (Z.to_nat k). split; [lia|]. apply in_seq. lia.
  - intros (n & <- & Hn). apply in_seq in Hn. lia.
Qed.

(** Checked rate by rate, on all 251 rates. *)
Lemma steps_exact_on_grid : Forall steps_exact_at default_grid.
Proof.
  unfold steps_exact_at.
  let l := eval vm_compute in default_grid in change default_grid with l.
  repeat (apply List.Forall_cons;
          [repeat split; vm_compute; reflexivity|]).
  apply List.Forall_nil.
Qed.

Lemma step_of_in_range (up : bool) (options : Options) (k : Z) :
  (50 <= k <= 300)%Z -> (50 <= step_of up options k <= 300)%Z.
Proof.
  intros Hk. unfold step_of, fine_up, fine_down, coarse_up, coarse_down.
  destruct up, (coarse options);
    repeat match goal with
           | |- context [(?a <=? ?b)%Z] => destruct (Z.leb_spec a b)
           end; lia.
Qed.

Lemma directionalRate_on_grid (up : bool) (options : Options) (k : Z) :
  (50 <= k <= 300)%Z -> wrap options = negb (coarse options) ->
  directionalRate DEFAULT_CONFIG (hundredths k : float) up options
  = hundredths (step_of up options k).
Proof.
  intros Hk Hwrap. apply default_grid_spec in Hk.
  pose proof steps_exact_on_grid as Hall. rewrite List.Forall_forall in Hall.
  destruct (Hall k Hk) as (Hfu & Hfd & Hcu & Hcd).
  destruct options as [c wr]. cbn in Hwrap. subst wr.
  destruct up, c; assumption.
Qed.

(** X9.  Under the default configuration the keyboard steps are exact in
    binary64 on the whole default range: from each of the 251 rates
    0.50, 0.51, ..., 3.00 a fine step adds or subtracts exactly 0.05 and
    wraps to the opposite bound when it would pass a bound, and a coarse step
    adds or subtracts exactly 0.25 and stops at the bound. *)
Theorem keyboard_steps_exact (k : Z) :
  (50 <= k <= 300)%Z -> steps_exact_at k.
Proof.
  intros Hk. apply default_grid_spec in Hk.
  pose proof steps_exact_on_grid as Hall. rewrite List.Forall_forall in Hall.
  apply Hall, Hk.
Qed.

(** X10.  No drift, however long the session: under the default
    configuration, starting from any rate of the default range, every
    sequence of fine and coarse key steps ends, in binary64, on the rate that
    integer arithmetic on hundredths predicts, which is again a rate of the
    range. *)
Theorem keyboard_steps_never_drift (steps : list (bool * Options)) (k : Z) :
  (50 <= k <= 300)%Z ->
  Forall (fun step => wrap (snd step) = negb (coarse (snd step))) steps ->
  let k' := fold_left (fun k step => step_of (fst step) (snd step) k) steps k in
  fold_left (fun r step => directionalRate DEFAULT_CONFIG r (fst step) (snd step))
            steps (hundredths k : float)
  = hundredths k'
  /\ (50 <= k' <= 300)%Z.
Proof.
  revert k. induction steps as [|[up options] steps IH]; intros k Hk Hsteps.
  - cbn. split; [reflexivity | exact Hk].
  - inversion Hsteps as [|? ? Hstep Hrest]; subst. cbn [fold_left fst snd].
    cbn [snd] in Hstep.
    rewrite (directionalRate_on_grid up options k Hk Hstep).
    apply IH; [apply step_of_in_range, Hk | exact Hrest].
Qed.

(** X11.  Under the default configuration a step up followed by the same
    step down restores the rate exactly (binary64), for every rate of the
    default range from which the step up does not reach past the upper
    bound. *)
Theorem step_up_then_down_restores (k : Z) (options : Options) :
  wrap options = negb (coarse options) ->
  (50 <= k)%Z ->
  (k + (if coarse options then 25 else 5) <= 300)%Z ->
  directionalRate DEFAULT_CONFIG
    (directionalRate DEFAULT_CONFIG (hundredths k : float) true options)
    false options
  = hundredths k.
Proof.
  intros Hwrap Hlo Hhi.
  assert (50 <= k <= 300)%Z as Hk by (destruct (coarse options); lia).
  rewrite (directionalRate_on_grid true options k Hk Hwrap).
  rewrite (directionalRate_on_grid false options _
             (step_of_in_range true options k Hk) Hwrap).
  f_equal. unfold step_of. destruct (coarse options).
  - unfold coarse_up, coarse_down. lia.
  - unfold fine_up. destruct (Z.leb_spec (k + 5) 300); [|lia].
    unfold fine_down. destruct (Z.leb_spec 50 (k + 5 - 5)); lia.
Qed.

End DefaultGrid.

Lemma keyboard_steps_exact_witness : steps_exact_at 295.
Proof. apply keyboard_steps_exact. lia. Defined.

Lemma keyboard_steps_never_drift_witness :
  fold_left (fun r step => directionalRate DEFAULT_CONFIG r (fst step) (snd step))
            [(true, fine_options); (true, coarse_options); (false, fine_options)]
            (hundredths 290 : float)
  = hundredths 295.
Proof.
  refine (proj1 (keyboard_steps_never_drift
                   [(true, fine_options); (true, coarse_options);
                    (false, fine_options)] 290 _ _)).
  - lia.
  - repeat constructor.
Defined.

Lemma step_up_then_down_restores_witness :
  directionalRate DEFAULT_CONFIG
    (directionalRate DEFAULT_CONFIG (hundredths 100 : float) true fine_options)
    false fine_options
  = hundredths 100.
Proof.
  apply (step_up_then_down_restores 100 fine_options); [reflexivity | lia | cbn; lia].
Defined.

(** ** More on the synchronizer *)

Section SynchronizerMore.
Context {num : Type} `{JsNumber num}.

Lemma find_ext {A} (f g : A -> bool) (l : list A) :
  (forall x, f x = g x) -> List.find f l = List.find g l.
Proof.
  intros Hfg. induction l as [|x l IH]; cbn; [reflexivity|].
  rewrite Hfg, IH. reflexivity.
Qed.

(** The locator looks at the document and at whether videos are active,
    nothing else. *)
Lemma findVideoElement_ext (w1 w2 : World num) :
  document w1 = document w2 ->
  (forall v, is_active w1 v = is_active w2 v) ->
  findVideoElement w1 = findVideoElement w2.
Proof.
  intros Hdoc Hactive. unfold findVideoElement. rewrite Hdoc.
  rewrite (find_ext (fun v => is_active w1 (node_id v))
             (fun v => is_active w2 (node_id v)) _
             (fun v => Hactive (node_id v))).
  reflexivity.
Qed.

Lemma write_playbackRate_is_active (video : ref) (rate : num) (w : World num)
    (v : ref) :
  is_active (write_playbackRate video rate w) v = is_active w v.
Proof.
  unfold is_active, write_playbackRate, deref. cbn.
  destruct (decide (video = v)) as [->|Hne].
  - rewrite lookup_insert_eq. reflexivity.
  - rewrite lookup_insert_ne by exact Hne. reflexivity.
Qed.

Lemma applyStoredRate_frame (video : ref) (w : World num) :
  document (applyStoredRate video w) = document w
  /\ state (applyStoredRate video w) = state w
  /\ (forall v, is_active (applyStoredRate video w) v = is_active w v)
  /\ (forall v, v <> video ->
        heap (applyStoredRate video w) !! v = heap w !! v)
  /\ listeners (deref (applyStoredRate video w) video)
     = listeners (deref w video)
  /\ _superlearnerAttached (deref (applyStoredRate video w) video)
     = _superlearnerAttached (deref w video).
Proof.
  unfold applyStoredRate, updateRateDisplay.
  destruct (negb _);
    cbn [document log write_playbackRate set_heap];
    destruct (rateDisplay_target (document w)); cbn;
    repeat split; try reflexivity;
    try (intros v; apply (write_playbackRate_is_active video _ w v));
    try (intros v Hv; apply lookup_insert_ne; congruence);
    unfold deref; cbn; rewrite lookup_insert_eq; reflexivity.
Qed.

(** What attaching does to a video that was not attached. *)
Lemma attachVideoListeners_new (video : ref) (w : World num) :
  _superlearnerAttached (deref w video) = false ->
  listeners (deref (attachVideoListeners video w) video)
  = listeners (deref w video) ++ video_listeners
  /\ _superlearnerAttached (deref (attachVideoListeners video w) video) = true.
Proof.
  intros Hnew. unfold attachVideoListeners. rewrite Hnew.
  set (w1 := set_heap _ w).
  assert (listeners (deref w1 video) = listeners (deref w video) ++ video_listeners
          /\ _superlearnerAttached (deref w1 video) = true) as [Hl Ha].
  { unfold w1, deref. cbn. rewrite lookup_insert_eq. split; reflexivity. }
  destruct (1 <=? _)%nat; [|split; assumption].
  destruct (applyStoredRate_frame video w1) as (_ & _ & _ & _ & Hl' & Ha').
  rewrite Hl', Ha'. split; assumption.
Qed.

Lemma attachVideoListeners_frame (video : ref) (w : World num) :
  document (attachVideoListeners video w) = document w
  /\ state (attachVideoListeners video w) = state w
  /\ (forall v, is_active (attachVideoListeners video w) v = is_active w v)
  /\ (forall v, v <> video ->
        heap (attachVideoListeners video w) !! v = heap w !! v).
Proof.
  unfold attachVideoListeners.
  destruct (_superlearnerAttached (deref w video)); [repeat split|].
  set (w1 := set_heap _ w).
  assert (document w1 = document w /\ state w1 = state w
          /\ (forall v, is_active w1 v = is_active w v)
          /\ (forall v, v <> video -> heap w1 !! v = heap w !! v))
    as (Hd & Hs & Ha & Hh).
  { unfold w1. repeat split.
    - intros v. unfold is_active, deref. cbn.
      destruct (decide (video = v)) as [->|Hne].
      + rewrite lookup_insert_eq. reflexivity.
      + rewrite lookup_insert_ne by exact Hne. reflexivity.
    - intros v Hv. cbn. apply lookup_insert_ne. congruence. }
  destruct (1 <=? _)%nat; [|repeat split; assumption].
  destruct (applyStoredRate_frame video w1) as (Hd' & Hs' & Ha' & Hh' & _).
  rewrite Hd', Hs'. repeat split; try assumption.
  - intros v. rewrite Ha'. apply Ha.
  - intros v Hv. rewrite (Hh' v Hv). apply Hh, Hv.
Qed.

Lemma attachVideoListeners_attached (video : ref) (w : World num) :
  _superlearnerAttached (deref (attachVideoListeners video w) video) = true.
Proof.
  destruct (_superlearnerAttached (deref w video)) eqn:Hflag.
  - unfold attachVideoListeners. rewrite Hflag. exact Hflag.
  - apply attachVideoListeners_new, Hflag.
Qed.


(** X13.  On a video that carries exactly the listeners of
    [attachVideoListeners], each of [loadedmetadata], [loadeddata],
    [canplay], [play] and [playing] runs [applyStoredRate] once and nothing
    else, and an event of any other type changes nothing. *)
Theorem dispatch_on_attached_video (video : ref) (type : string) (w : World num) :
  listeners (deref w video) = video_listeners ->
  dispatchEvent video type w
  = if existsb (String.eqb type) readiness_events
    then applyStoredRate video w
    else w.
Proof.
  intros Hls. unfold dispatchEvent. rewrite Hls.
  unfold video_listeners, readiness_events.
  cbn [fold_left fst snd existsb run_listener].
  rewrite on_ratechange_noop.
  rewrite !(String.eqb_sym type).
  destruct (String.eqb_spec "loadedmetadata" type) as [<-|_]; [reflexivity|].
  destruct (String.eqb_spec "loadeddata" type) as [<-|_]; [reflexivity|].
  destruct (String.eqb_spec "canplay" type) as [<-|_]; [reflexivity|].
  destruct (String.eqb_spec "play" type) as [<-|_]; [reflexivity|].
  destruct (String.eqb_spec "playing" type) as [<-|_]; [reflexivity|].
  cbn [orb]. destruct (String.eqb "ratechange" type); reflexivity.
Qed.

End SynchronizerMore.


Lemma dispatch_on_attached_video_witness :
  let w := attachVideoListeners 3%nat (reloaded_world (hundredths 135 : float)) in
  dispatchEvent 3%nat "canplay" w = applyStoredRate 3%nat w.
Proof.
  cbv zeta.
  apply (dispatch_on_attached_video 3%nat "canplay"
           (attachVideoListeners 3%nat (reloaded_world (hundredths 135 : float)))).
  reflexivity.
Defined.

Section Rescan.
Context {num : Type} `{JsNumber num}.

Lemma write_currentVideo_findVideoElement (video : ref) (w : World num) :
  findVideoElement (write_currentVideo video w) = findVideoElement w.
Proof. reflexivity. Qed.

(** The world after the scan has adopted [video]. *)
Lemma adopt_frame (entry : LogEntry num) (video : ref) (w : World num) :
  let w' := log entry (attachVideoListeners video (write_currentVideo video w)) in
  findVideoElement w' = findVideoElement w
  /\ currentVideo (state w') = Some video
  /\ _superlearnerAttached (deref w' video) = true.
Proof.
  cbv zeta.
  destruct (attachVideoListeners_frame video (write_currentVideo video w))
    as (Hd & Hs & Ha & _).
  split; [|split].
  - rewrite <- (write_currentVideo_findVideoElement video w).
    apply findVideoElement_ext; [exact Hd | exact Ha].
  - cbn [state log]. rewrite Hs. reflexivity.
  - apply (attachVideoListeners_attached video (write_currentVideo video w)).
Qed.

(** X14.  The scan shared by the mutation observer and the polling timer:
    when the locator finds nothing it changes nothing (a handle held from
    before is kept); when the locator finds a video, that video is the
    handle afterwards, and it has its listeners if it was not the handle
    already; and scanning again, from either trigger, changes nothing
    more. *)
Theorem rescan_converges (entry entry' : LogEntry num) (w : World num) :
  (findVideoElement w = None -> rescan entry w = w)
  /\ (forall video, findVideoElement w = Some video ->
        currentVideo (state (rescan entry w)) = Some video
        /\ (currentVideo (state w) <> Some video ->
            _superlearnerAttached (deref (rescan entry w) video) = true))
  /\ rescan entry' (rescan entry w) = rescan entry w.
Proof.
  split; [intros Hnone; unfold rescan; rewrite Hnone; reflexivity|].
  split.
  - intros video Hfound. unfold rescan. rewrite Hfound.
    destruct (currentVideo (state w)) as [cv|] eqn:Hcv.
    + destruct (Nat.eqb_spec cv video) as [->|Hne]; cbn [negb].
      * split; [exact Hcv | intros Hdiff; congruence].
      * destruct (adopt_frame entry video w) as (_ & Hnow & Hatt).
        split; [exact Hnow | intros _; exact Hatt].
    + destruct (adopt_frame entry video w) as (_ & Hnow & Hatt).
      split; [exact Hnow | intros _; exact Hatt].
  - assert (findVideoElement (rescan entry w) = findVideoElement w
            /\ (forall video, findVideoElement w = Some video ->
                  currentVideo (state (rescan entry w)) = Some video))
      as [Hsame Hnow].
    { unfold rescan. destruct (findVideoElement w) as [video|] eqn:Hfound.
      2: { split; [exact Hfound | discriminate]. }
      destruct (adopt_frame entry video w) as (Hsame & Hnow & _).
      destruct (currentVideo (state w)) as [cv|] eqn:Hcv.
      - destruct (Nat.eqb_spec cv video) as [->|Hne]; cbn [negb].
        + split; [exact Hfound | intros v [= <-]; exact Hcv].
        + split; [rewrite Hsame; exact Hfound | intros v [= <-]; exact Hnow].
      - split; [rewrite Hsame; exact Hfound | intros v [= <-]; exact Hnow]. }
    unfold rescan at 1. rewrite Hsame.
    destruct (findVideoElement w) as [video|]; [|reflexivity].
    rewrite (Hnow video eq_refl), Nat.eqb_refl. reflexivity.
Qed.

(** X15.  A video that [setPlaybackRate] adopts as the handle gets no
    listeners: when the script holds no handle and the locator finds an
    unattached video, the call makes it the handle without attaching, and
    every later scan finds the handle unchanged and attaches nothing either,
    so the stored rate is not reapplied on that video's readiness events. *)
Theorem adopted_video_stays_unattached (w : World num) (rate : RateArg num)
    (options : Options) (entry : LogEntry num) (video : ref) :
  currentVideo (state w) = None ->
  findVideoElement w = Some video ->
  _superlearnerAttached (deref w video) = false ->
  let w' := setPlaybackRate rate options w in
  currentVideo (state w') = Some video
  /\ rescan entry w' = w'
  /\ _superlearnerAttached (deref w' video) = false
  /\ listeners (deref w' video) = listeners (deref w video)
  /\ forall type, listeners (deref w video) = [] ->
       dispatchEvent video type w' = w'.
Proof.
  intros Hnone Hfound Hflag.
  assert (currentVideo_or_find w = Some video) as Hvideo
    by (unfold currentVideo_or_find; rewrite Hnone; exact Hfound).
  pose proof (setPlaybackRate_video w rate options video Hvideo) as Hset.
  cbv zeta in Hset. destruct Hset as (_ & _ & _ & _ & Hcv & _ & Hdoc).
  cbv zeta.
  assert (listeners (deref (setPlaybackRate rate options w) video)
            = listeners (deref w video)
          /\ _superlearnerAttached (deref (setPlaybackRate rate options w) video)
             = _superlearnerAttached (deref w video)
          /\ forall v, is_active (setPlaybackRate rate options w) v
                       = is_active w v) as (Hls & Hatt & Hact).
  { unfold setPlaybackRate. rewrite Hvideo.
    unfold showSpeedToast, updateRateDisplay.
    cbn [document savePlaybackRate write_playbackRate write_currentVideo
         set_heap set_state set_storage].
    destruct (rateDisplay_target (document w));
      (split; [|split]);
      try (unfold deref; cbn; rewrite lookup_insert_eq; reflexivity);
      intros v; apply (write_playbackRate_is_active video _ w v). }
  split; [exact Hcv|]. split.
  { unfold rescan.
    rewrite (findVideoElement_ext _ w Hdoc Hact), Hfound, Hcv, Nat.eqb_refl.
    reflexivity. }
  split; [rewrite Hatt; exact Hflag|].
  split; [exact Hls|].
  intros type Hempty. unfold dispatchEvent. rewrite Hls, Hempty. reflexivity.
Qed.

End Rescan.

Lemma rescan_converges_witness :
  let w := reloaded_world (hundredths 135 : float) in
  currentVideo (state (rescan New_video_detected w)) = Some 3%nat
  /\ _superlearnerAttached (deref (rescan New_video_detected w) 3%nat) = true
  /\ rescan Video_found_via_polling (rescan New_video_detected w)
     = rescan New_video_detected w
  /\ rescan New_video_detected (stale_world (float_of_Z 1))
     = stale_world (float_of_Z 1).
Proof.
  cbv zeta.
  destruct (rescan_converges New_video_detected Video_found_via_polling
              (reloaded_world (hundredths 135 : float)))
    as (_ & Htrack & Hagain).
  destruct (Htrack 3%nat eq_refl) as [Hnow Hattached].
  split; [exact Hnow|]. split; [apply Hattached; discriminate|].
  split; [exact Hagain|].
  exact (proj1 (rescan_converges New_video_detected New_video_detected
                  (stale_world (float_of_Z 1))) eq_refl).
Defined.

Lemma adopted_video_stays_unattached_witness :
  let w := lesson_world (float_of_Z 1) in
  let w' := setPlaybackRate increase fine_options w in
  currentVideo (state w') = Some 3%nat
  /\ rescan Video_found_via_polling w' = w'
  /\ _superlearnerAttached (deref w' 3%nat) = false
  /\ dispatchEvent 3%nat "canplay" w' = w'.
Proof.
  cbv zeta.
  destruct (adopted_video_stays_unattached (lesson_world (float_of_Z 1))
              increase fine_options Video_found_via_polling 3%nat
              eq_refl eq_refl eq_refl)
    as (Hnow & Hscan & Hflag & _ & Hevents).
  split; [exact Hnow|]. split; [exact Hscan|]. split; [exact Hflag|].
  apply Hevents. reflexivity.
Defined.

(** ** Initialization *)

Section Initialization.
Context {num : Type} `{JsNumber num}.

Lemma addKeyboardListeners_frame (w : World num) :
  document (addKeyboardListeners w) = document w
  /\ heap (addKeyboardListeners w) = heap w
  /\ storage (addKeyboardListeners w) = storage w
  /\ config (state (addKeyboardListeners w)) = config (state w)
  /\ currentVideo (state (addKeyboardListeners w)) = currentVideo (state w)
  /\ initialized (state (addKeyboardListeners w)) = initialized (state w)
  /\ keyListenerAdded (state (addKeyboardListeners w)) = true.
Proof.
  unfold addKeyboardListeners.
  destruct (keyListenerAdded (state w)) eqn:Hadded; repeat split; assumption.
Qed.

(** X16.  [initialize] runs once: after it the script is marked initialized
    and a further call changes nothing.  The first run installs the keyboard
    listener, loads the configuration from the store, and when the locator
    finds a video makes it the handle and attaches its listeners. *)
Theorem initialize_once (w : World num) :
  initialize (initialize w) = initialize w
  /\ initialized (state (initialize w)) = true
  /\ (initialized (state w) = false ->
      keyListenerAdded (state (initialize w)) = true
      /\ config (state (initialize w)) = config (state (loadConfig w))
      /\ storage (initialize w) = storage w
      /\ forall video,
           findVideoElement w = Some video ->
           currentVideo (state (initialize w)) = Some video
           /\ _superlearnerAttached (deref (initialize w) video) = true).
Proof.
  assert (initialized (state (initialize w)) = true) as Hdone.
  { unfold initialize. destruct (initialized (state w)) eqn:Hinit;
      [exact Hinit | reflexivity]. }
  split; [unfold initialize at 1; rewrite Hdone; reflexivity|].
  split; [exact Hdone|].
  intros Hfirst. unfold initialize. rewrite Hfirst.
  set (w2 := addKeyboardListeners (loadConfig w)).
  destruct (addKeyboardListeners_frame (loadConfig w))
    as (Hdoc & Hheap & Hsto & Hcfg & _ & _ & Hkey).
  fold w2 in Hdoc, Hheap, Hsto, Hcfg, Hkey.
  assert (findVideoElement w2 = findVideoElement w) as Hfind.
  { apply findVideoElement_ext; [exact Hdoc|].
    intros v. unfold is_active, deref. rewrite Hheap. reflexivity. }
  rewrite Hfind.
  destruct (findVideoElement w) as [video|].
  - destruct (attachVideoListeners_frame video (write_currentVideo video w2))
      as (_ & Hs & _ & _).
    pose proof (attachVideoListeners_attached video (write_currentVideo video w2))
      as Hatt.
    pose proof (attachVideoListeners_storage video (write_currentVideo video w2))
      as Hst.
    cbn [state log set_state keyListenerAdded config currentVideo storage].
    rewrite Hs. cbn [write_currentVideo set_state state keyListenerAdded config
                     currentVideo].
    split; [exact Hkey|]. split; [exact Hcfg|].
    split; [rewrite Hst; exact Hsto|].
    intros v [= <-]. split; [reflexivity | exact Hatt].
  - cbn [state log set_state keyListenerAdded config currentVideo storage].
    split; [exact Hkey|]. split; [exact Hcfg|]. split; [exact Hsto|].
    intros v Hv. discriminate Hv.
Qed.

End Initialization.

Lemma initialize_once_witness :
  let w := reloaded_world (hundredths 135 : float) in
  initialize (initialize w) = initialize w
  /\ keyListenerAdded (state (initialize w)) = true
  /\ currentVideo (state (initialize w)) = Some 3%nat
  /\ _superlearnerAttached (deref (initialize w) 3%nat) = true.
Proof.
  cbv zeta.
  destruct (initialize_once (reloaded_world (hundredths 135 : float)))
    as (Honce & _ & Hfirst).
  destruct (Hfirst eq_refl) as (Hkey & _ & _ & Hvideo).
  destruct (Hvideo 3%nat eq_refl) as [Hnow Hattached].
  split; [exact Honce|]. split; [exact Hkey|].
  split; [exact Hnow | exact Hattached].
Defined.

(** ** Configuration: popup to store to content script *)

Section Configuration.
Context {num : Type} `{JsNumber num}.

Lemma merge_config_full (base cfg : Config num) :
  merge_config base
    {| p_minRate := Some (minRate cfg); p_maxRate := Some (maxRate cfg);
       p_fineIncrement := Some (fineIncrement cfg);
       p_coarseIncrement := Some (coarseIncrement cfg);
       p_defaultRate := Some (defaultRate cfg) |}
  = cfg.
Proof. destruct cfg. reflexivity. Qed.

Lemma sendToTab_CONFIG_UPDATED (b : Browser num) :
  let b' := sendToTab CONFIG_UPDATED b in
  storage (world b') = storage (world b)
  /\ heap (world b') = heap (world b)
  /\ document (world b') = document (world b)
  /\ console (world b') = console (world b)
  /\ screen (world b') = screen (world b)
  /\ currentVideo (state (world b')) = currentVideo (state (world b))
  /\ popup b' = popup b
  /\ config (state (world b'))
     = if tab_reachable b then config (state (loadConfig (world b)))
       else config (state (world b)).
Proof.
  cbv zeta. unfold sendToTab, tab_reachable.
  destruct (tab_url b) as [url|]; [|repeat split].
  destruct (includes url "udemy.com" && content_loaded b); repeat split.
Qed.

Lemma saveConfig_effects (b : Browser num) :
  let b' := saveConfig b in
  config (state (loadConfig (world b'))) = currentConfig (popup b)
  /\ currentConfig (popup (popup_loadConfig b')) = currentConfig (popup b)
  /\ (tab_reachable b = true ->
      config (state (world b')) = currentConfig (popup b))
  /\ udemy_playback_rate (storage (world b'))
     = udemy_playback_rate (storage (world b))
  /\ heap (world b') = heap (world b)
  /\ popup b' = popup b.
Proof.
  cbv zeta. unfold saveConfig.
  set (saved := set_world _ b).
  pose proof (sendToTab_CONFIG_UPDATED saved) as Hsend. cbv zeta in Hsend.
  destruct Hsend as (Hsto & Hheap & _ & _ & _ & _ & Hpop & Hcfg).
  assert (tab_reachable saved = tab_reachable b) as Hreach by reflexivity.
  assert (config (state (loadConfig (world saved))) = currentConfig (popup b))
    as Hloaded.
  { unfold saved, loadConfig. cbn. apply merge_config_full. }
  split.
  { unfold loadConfig in *. rewrite Hsto. exact Hloaded. }
  split.
  { unfold popup_loadConfig. cbn [popup set_popup currentConfig]. rewrite Hsto.
    unfold saved. cbn. apply merge_config_full. }
  split.
  { intros Hyes. rewrite Hcfg, Hreach, Hyes. exact Hloaded. }
  split; [rewrite Hsto; reflexivity|].
  split; [rewrite Hheap; reflexivity | exact Hpop].
Qed.

(** X17.  A configuration saved by the popup comes back unchanged: the
    content script's [loadConfig] and the popup's own [loadConfig] read back
    exactly the popup's [currentConfig], and a content script that is
    reachable has it already when [saveConfig] returns.  Saving touches
    neither the persisted rate nor any video element. *)
Theorem saveConfig_round_trip (b : Browser num) :
  let b' := saveConfig b in
  config (state (loadConfig (world b'))) = currentConfig (popup b)
  /\ currentConfig (popup (popup_loadConfig b')) = currentConfig (popup b)
  /\ (tab_reachable b = true ->
      config (state (world b')) = currentConfig (popup b))
  /\ udemy_playback_rate (storage (world b'))
     = udemy_playback_rate (storage (world b))
  /\ heap (world b') = heap (world b).
Proof.
  destruct (saveConfig_effects b) as (H1 & H2 & H3 & H4 & H5 & _).
  cbv zeta. repeat split; assumption.
Qed.

(** X18.  A settings change in the popup replaces the one value it is
    about, saves the configuration so that it reads back as the popup holds
    it, and leaves the rate alone: the persisted rate, the popup's current
    rate and every video element stay as they are, also when the rate now
    lies outside the new bounds. *)
Theorem settings_change_keeps_rate (e : PopupEvent num) (b : Browser num) :
  is_settings_event e = true ->
  let b' := popup_event e b in
  currentConfig (popup b') = config_after e (currentConfig (popup b))
  /\ config (state (loadConfig (world b'))) = currentConfig (popup b')
  /\ udemy_playback_rate (storage (world b'))
     = udemy_playback_rate (storage (world b))
  /\ currentRate (popup b') = currentRate (popup b)
  /\ heap (world b') = heap (world b).
Proof.
  intros Hsettings. cbv zeta.
  destruct e; try discriminate Hsettings; cbn [popup_event];
    match goal with
    | |- context [saveConfig ?b0] =>
        destruct (saveConfig_effects b0) as (Hload & _ & _ & Hrate & Hheap & Hpop)
    end;
    rewrite Hpop, Hload, Hrate, Hheap; repeat split.
Qed.

End Configuration.

Lemma saveConfig_round_trip_witness :
  let b := popup_over (lesson_world (float_of_Z 1)) in
  config (state (world (saveConfig b))) = currentConfig (popup b).
Proof.
  cbv zeta.
  destruct (saveConfig_round_trip (popup_over (lesson_world (float_of_Z 1))))
    as (_ & _ & Hreach & _).
  apply Hreach. reflexivity.
Defined.

(** The minimum is raised to 2.0 while the persisted rate is 1.35: the rate
    stays 1.35. *)
Lemma settings_change_keeps_rate_witness :
  let b := popup_over (reloaded_world (hundredths 135 : float)) in
  let b' := popup_event (change_minRate (float_of_Z 2)) b in
  minRate (currentConfig (popup b')) = float_of_Z 2
  /\ udemy_playback_rate (storage (world b')) = Some (hundredths 135).
Proof.
  cbv zeta.
  destruct (settings_change_keeps_rate (change_minRate (float_of_Z 2))
              (popup_over (reloaded_world (hundredths 135 : float))) eq_refl)
    as (Hcfg & _ & Hrate & _).
  split; [rewrite Hcfg; reflexivity | rewrite Hrate; reflexivity].
Defined.

(** ** The popup's events *)

Section PopupEvents.
Context {num : Type} `{JsNumber num}.

Lemma sendToTab_unreachable (message : Message num) (b : Browser num) :
  tab_reachable b = false -> sendToTab message b = b.
Proof.
  unfold tab_reachable, sendToTab. intros Hno.
  destruct (tab_url b); [rewrite Hno|]; reflexivity.
Qed.

Lemma tab_reachable_url (b : Browser num) :
  tab_reachable b = true ->
  exists url, tab_url b = Some url /\ includes url "udemy.com" = true
              /\ content_loaded b = true.
Proof.
  unfold tab_reachable. destruct (tab_url b) as [url|]; [|discriminate].
  intros Hyes. apply andb_prop in Hyes as [Hurl Hloaded]. eauto.
Qed.

Lemma setRate_popup_fields (b : Browser num) (rate : num) :
  let r := committed_rate (currentConfig (popup b)) rate in
  popup (setRate rate b)
  = {| currentConfig := currentConfig (popup b); currentRate := r;
       currentSpeed := r; speedSlider := r |}.
Proof.
  cbv zeta. unfold setRate, sendToTab, updateSpeedDisplay, set_popup, set_world.
  cbn [tab_url content_loaded world popup].
  destruct (tab_url b) as [url|]; [|reflexivity].
  destruct (includes url "udemy.com" && content_loaded b); reflexivity.
Qed.

Lemma popup_event_commit (e : PopupEvent num) (b : Browser num) :
  is_rate_commit e = true ->
  popup_event e b = setRate (requested_rate e (popup b)) b.
Proof. destruct e; try discriminate; reflexivity. Qed.

(** X19.  Every rate committed in the popup (stepper buttons, slider
    release, preset buttons, arrow keys) leaves one rate everywhere: the
    clamped and rounded request is the persisted rate, the popup's current
    rate, the displayed speed and the slider position, and, when a content
    script is reachable and has a video, that video's rate.  The
    configuration, in the popup and in the store, is untouched. *)
Theorem rate_commit_coherent (e : PopupEvent num) (b : Browser num) :
  is_rate_commit e = true ->
  let b' := popup_event e b in
  let r := committed_rate (currentConfig (popup b)) (requested_rate e (popup b)) in
  udemy_playback_rate (storage (world b')) = Some r
  /\ currentRate (popup b') = r
  /\ currentSpeed (popup b') = r
  /\ speedSlider (popup b') = r
  /\ currentConfig (popup b') = currentConfig (popup b)
  /\ udemy_config (storage (world b')) = udemy_config (storage (world b))
  /\ (tab_reachable b = true ->
      forall video, currentVideo_or_find (world b) = Some video ->
                    playbackRate (deref (world b') video) = r).
Proof.
  intros Hcommit. cbv zeta. rewrite (popup_event_commit e b Hcommit).
  set (x := requested_rate e (popup b)).
  rewrite setRate_storage, setRate_popup_fields. cbn.
  repeat split.
  intros Hreach video Hvideo.
  destruct (tab_reachable_url b Hreach) as (url & Hurl & Hudemy & Hloaded).
  apply (setRate_video b x url video Hurl Hudemy Hloaded Hvideo).
Qed.

(** X20.  Without a reachable content script (no active tab, a tab that is
    not on udemy.com, or no content script in it) no popup event touches the
    page: the document, the video elements, the script state, the console and
    the on-screen feedback stay as they are, and only the store can change.
    Moving the slider without releasing it changes nothing outside the popup
    in any case. *)
Theorem popup_without_reachable_tab (e : PopupEvent num) (b : Browser num) :
  (tab_reachable b = false ->
   page_of (world (popup_event e b)) = page_of (world b))
  /\ (forall value, world (popup_event (input_speedSlider value) b) = world b).
Proof.
  split; [|reflexivity].
  intros Hno.
  assert (forall rate, page_of (world (setRate rate b)) = page_of (world b))
    as Hrate.
  { intros rate. unfold setRate.
    rewrite sendToTab_unreachable by exact Hno. reflexivity. }
  assert (forall cfg, page_of (world (saveConfig (set_currentConfig cfg b)))
                      = page_of (world b)) as Hsave.
  { intros cfg. unfold saveConfig.
    rewrite sendToTab_unreachable by exact Hno. reflexivity. }
  destruct e; cbn [popup_event]; try apply Hrate; try apply Hsave; reflexivity.
Qed.

End PopupEvents.

Lemma rate_commit_coherent_witness :
  let b := popup_over (lesson_world (float_of_Z 1)) in
  let b' := popup_event (click_preset (hundredths 175)) b in
  udemy_playback_rate (storage (world b')) = Some (hundredths 175)
  /\ currentRate (popup b') = hundredths 175
  /\ playbackRate (deref (world b') 3%nat) = hundredths 175.
Proof.
  cbv zeta.
  destruct (rate_commit_coherent (click_preset (hundredths 175))
              (popup_over (lesson_world (float_of_Z 1))) eq_refl)
    as (Hstored & Hrate & _ & _ & _ & _ & Hvideo).
  split; [exact Hstored|]. split; [exact Hrate|].
  apply Hvideo; reflexivity.
Defined.

Lemma popup_without_reachable_tab_witness :
  let b := {| popup := popup (popup_over (lesson_world (float_of_Z 1)));
              tab_url := Some "https://example.org/";
              content_loaded := false;
              world := lesson_world (float_of_Z 1) |} in
  page_of (world (popup_event click_increaseBtn b)) = page_of (world b).
Proof.
  cbv zeta.
  apply (popup_without_reachable_tab click_increaseBtn
           {| popup := popup (popup_over (lesson_world (float_of_Z 1)));
              tab_url := Some "https://example.org/";
              content_loaded := false;
              world := lesson_world (float_of_Z 1) |}).
  reflexivity.
Defined.

(** ** Messages *)

(** X21.  [GET_RATE] only reads: the world is returned as it was, and the
    answer is the rate of the video at hand when that rate is a number other
    than 0, and 1.0 in every other case (no video, rate 0 or NaN), so the
    answer is never 0 or NaN (binary64). *)
Theorem GET_RATE_reads_only (w : World float) :
  exists r,
    onMessage GET_RATE w = (w, current_rate r)
    /\ truthy r = true
    /\ (currentVideo_or_find w = None -> r = float_of_Z 1)
    /\ (forall video, currentVideo_or_find w = Some video ->
          r = if truthy (playbackRate (deref w video))
              then playbackRate (deref w video) else float_of_Z 1).
Proof.
  unfold onMessage.
  destruct (currentVideo_or_find w) as [video|].
  - destruct (truthy (playbackRate (deref w video))) eqn:Htruthy.
    + eexists. split; [reflexivity|]. split; [exact Htruthy|].
      split; [discriminate|]. intros v [= <-]. rewrite Htruthy. reflexivity.
    + eexists. split; [reflexivity|]. split; [reflexivity|].
      split; [discriminate|]. intros v [= <-]. rewrite Htruthy. reflexivity.
  - eexists. split; [reflexivity|]. split; [reflexivity|].
    split; [reflexivity | discriminate].
Qed.

Lemma GET_RATE_reads_only_witness :
  exists r, onMessage GET_RATE (stale_world (float_of_Z 0))
            = (stale_world (float_of_Z 0), current_rate r)
            /\ r = float_of_Z 1.
Proof.
  destruct (GET_RATE_reads_only (stale_world (float_of_Z 0)))
    as (r & Hanswer & _ & _ & Hvideo).
  exists r. split; [exact Hanswer|].
  rewrite (Hvideo 3%nat eq_refl). reflexivity.
Defined.

(** ** The popup's steps on the default range, in binary64 *)

Section PopupGrid.

Lemma popup_steps_exact_on_grid : Forall popup_steps_exact_at default_grid.
Proof.
  unfold popup_steps_exact_at.
  let l := eval vm_compute in default_grid in change default_grid with l.
  repeat (apply List.Forall_cons;
          [repeat split; vm_compute; reflexivity|]).
  apply List.Forall_nil.
Qed.

(** X22.  Under the default configuration the popup's steps are exact in
    binary64 on the whole default range and stop at the bounds: from a
    current rate of [k] hundredths, 50 <= k <= 300, the increase and decrease
    buttons and the plain arrow keys store exactly 0.05 more or less, the
    arrow keys with Ctrl exactly 0.25 more or less, and never less than 0.5
    or more than 3.0.  (The keyboard's fine step on the page wraps around
    instead.) *)
Theorem popup_steps_exact (b : Browser float) (k : Z) :
  (50 <= k <= 300)%Z ->
  currentConfig (popup b) = DEFAULT_CONFIG ->
  currentRate (popup b) = hundredths k ->
  let stored e := udemy_playback_rate (storage (world (popup_event e b))) in
  stored click_increaseBtn = Some (hundredths (Z.min (k + 5) 300))
  /\ stored click_decreaseBtn = Some (hundredths (Z.max (k - 5) 50))
  /\ stored (keydown_ArrowRight false) = Some (hundredths (Z.min (k + 5) 300))
  /\ stored (keydown_ArrowLeft false) = Some (hundredths (Z.max (k - 5) 50))
  /\ stored (keydown_ArrowRight true) = Some (hundredths (Z.min (k + 25) 300))
  /\ stored (keydown_ArrowLeft true) = Some (hundredths (Z.max (k - 25) 50)).
Proof.
  intros Hk Hcfg Hrate. cbv zeta.
  apply default_grid_spec in Hk.
  pose proof popup_steps_exact_on_grid as Hall.
  rewrite List.Forall_forall in Hall.
  destruct (Hall k Hk) as (Hfu & Hfd & Hcu & Hcd).
  cbn [popup_event]. rewrite !setRate_storage. cbn [udemy_playback_rate].
  rewrite Hcfg, Hrate.
  repeat split; f_equal; assumption.
Qed.

End PopupGrid.

Lemma popup_steps_exact_witness :
  udemy_playback_rate
    (storage (world (popup_event click_increaseBtn
                       (popup_event (click_preset (hundredths 300))
                          (popup_over (lesson_world (float_of_Z 1)))))))
  = Some (hundredths 300).
Proof.
  refine (proj1 (popup_steps_exact
                   (popup_event (click_preset (hundredths 300))
                      (popup_over (lesson_world (float_of_Z 1)))) 300 _ _ _)).
  - lia.
  - reflexivity.
  - vm_compute. reflexivity.
Defined.

(** ** What the user sees: [formatRate] on the default range *)

Section Formatting.

Lemma formatRate_on_grid :
  Forall (fun k => formatRate (hundredths k) = Some (grid_format k)) default_grid.
Proof.
  let l := eval vm_compute in default_grid in change default_grid with l.
  repeat (apply List.Forall_cons; [vm_compute; reflexivity|]).
  apply List.Forall_nil.
Qed.

(** X23.  On the default range [formatRate] prints two decimals for every
    rate except 0.8 and 1.6: in binary64 the test [rounded % 0.1 === 0]
    holds for those two rates only, so 1.5 is shown as "1.50" and 2.0 as
    "2.00", while 0.8 and 1.6 are shown as "0.8" and "1.6". *)
Theorem formatRate_default_range (k : Z) :
  (50 <= k <= 300)%Z ->
  formatRate (hundredths k) = Some (grid_format k)
  /\ (PrimFloat.eqb (float_rem (round2 (hundredths k)) (hundredths 10))
        PrimFloat.zero
      = (k =? 80)%Z || (k =? 160)%Z).
Proof.
  intros Hk. apply default_grid_spec in Hk. split.
  - pose proof formatRate_on_grid as Hall. rewrite List.Forall_forall in Hall.
    apply Hall, Hk.
  - revert k Hk. apply List.Forall_forall.
    let l := eval vm_compute in default_grid in change default_grid with l.
    repeat (apply List.Forall_cons; [vm_compute; reflexivity|]).
    apply List.Forall_nil.
Qed.

End Formatting.

Lemma formatRate_default_range_witness :
  formatRate (hundredths 150) = Some "1.50"%string
  /\ formatRate (hundredths 160) = Some "1.6"%string.
Proof.
  split.
  - refine (proj1 (formatRate_default_range 150 _)). lia.
  - refine (proj1 (formatRate_default_range 160 _)). lia.
Defined.

(** After Shift+ArrowRight on a lesson playing at 1.45 the toast reads
    "1.50x" and the console "Speed set to 1.50x". *)
Example toast_and_log_text :
  let w := keydown fine_increase_key (lesson_world (hundredths 145)) in
  map feedback_rate_text (screen w) = [Some "1.50x"; Some "1.50x"]%string
  /\ map log_text (console w) = [Some "Speed set to 1.50x"%string].
Proof. split; vm_compute; reflexivity. Qed.

(** ** The keyboard keeps the rate on the grid (binary64) *)

Section GridInvariant.

Lemma speedMap_on_grid (rate : float) : In rate speedMap -> on_grid rate.
Proof.
  unfold speedMap. cbn [In].
  intros Hin.
  repeat match type of Hin with
         | _ \/ _ => destruct Hin as [<-|Hin]
         end;
    try (eexists; split; [|reflexivity]; lia).
  destruct Hin.
Qed.

Lemma keydown_calls_shape (event : KeyboardEvent) (rate : RateArg float)
    (options : Options) :
  In (rate, options) (keydown_calls event) ->
  match rate with
  | explicit r => In r speedMap
  | _ => wrap options = negb (coarse options)
  end.
Proof.
  intros Hin. destruct rate as [| |r].
  - apply (keydown_calls_wrap event increase options Hin). exact I.
  - apply (keydown_calls_wrap event decrease options Hin). exact I.
  - unfold keydown_calls in Hin.
    destruct (_ || _ || target_isContentEditable event); [destruct Hin|].
    rewrite !in_app_iff in Hin.
    destruct Hin as [Hin|[Hin|[Hin|[Hin|Hin]]]].
    1-4: match type of Hin with
         | In _ (if ?c then _ else _) => destruct c
         end; [destruct Hin as [Heq|[]]; discriminate Heq | destruct Hin].
    destruct (_ && _ && _ && _); [|destruct Hin].
    destruct (parseInt _) as [n|]; [|destruct Hin].
    destruct (_ && _)%bool; [|destruct Hin].
    destruct (speedMap !! Z.to_nat (n - 1)) as [speed|] eqn:Hspeed;
      [|destruct Hin].
    destruct (truthy speed); [|destruct Hin].
    destruct Hin as [Heq|[]]. injection Heq as <- _.
    apply list_elem_of_In. eapply list_elem_of_lookup_2. exact Hspeed.
Qed.

Lemma setPlaybackRate_grid_world (w : World float) (rate : RateArg float)
    (options : Options) :
  grid_world w ->
  match rate with
  | explicit r => In r speedMap
  | _ => wrap options = negb (coarse options)
  end ->
  grid_world (setPlaybackRate rate options w).
Proof.
  intros (Hcfg & (video & Hcv & (k & Hk & Hrate)) & _) Hshape.
  pose proof (setPlaybackRate_video w rate options video
                (currentVideo_or_find_tracked w video Hcv)) as Hset.
  cbv zeta in Hset.
  destruct Hset as (Hstored & _ & _ & Hplay & Hcv' & Hcfg' & _).
  assert (on_grid (targetRate (config (state w)) (playbackRate (deref w video))
                              rate options)) as Hgrid.
  { rewrite Hcfg, Hrate. destruct rate as [| |r]; cbn [targetRate].
    - rewrite (directionalRate_on_grid true options k Hk Hshape).
      eexists. split; [apply step_of_in_range, Hk | reflexivity].
    - rewrite (directionalRate_on_grid false options k Hk Hshape).
      eexists. split; [apply step_of_in_range, Hk | reflexivity].
    - apply speedMap_on_grid, Hshape. }
  split; [rewrite Hcfg'; exact Hcfg|].
  split.
  - exists video. split; [exact Hcv'|]. rewrite Hplay. exact Hgrid.
  - rewrite Hstored. exact Hgrid.
Qed.

Lemma keydown_grid_world (event : KeyboardEvent) (w : World float) :
  grid_world w -> grid_world (keydown event w).
Proof.
  unfold keydown.
  assert (forall call, In call (keydown_calls (num:=float) event) ->
            match fst call with
            | explicit r => In r speedMap
            | _ => wrap (snd call) = negb (coarse (snd call))
            end) as Hshape.
  { intros [rate options] Hin. apply (keydown_calls_shape event rate options Hin). }
  revert w Hshape.
  induction (keydown_calls (num:=float) event) as [|call calls IH];
    intros w Hshape Hgrid; cbn [fold_left]; [exact Hgrid|].
  apply IH.
  - intros c Hc. apply Hshape. right. exact Hc.
  - apply setPlaybackRate_grid_world; [exact Hgrid|].
    apply Hshape. left. reflexivity.
Qed.

(** X24.  Under the default configuration the keyboard can never take the
    rate off the grid, in binary64: if the video held by the script plays at
    one of the rates 0.50, 0.51, ..., 3.00 and the persisted rate, if any, is
    one of them, then after every sequence of key events whatsoever the
    video's rate and the persisted rate are again rates of that grid, hence
    within [0.5, 3.0] and free of accumulated rounding error. *)
Theorem keyboard_keeps_grid (events : list KeyboardEvent) (w : World float) :
  grid_world w ->
  grid_world (fold_left (fun w event => keydown event w) events w).
Proof.
  revert w. induction events as [|event events IH]; intros w Hgrid.
  - exact Hgrid.
  - cbn [fold_left]. apply IH, keydown_grid_world, Hgrid.
Qed.

End GridInvariant.

Lemma keyboard_keeps_grid_witness :
  grid_world
    (fold_left (fun w event => keydown event w)
       [fine_increase_key; key "Digit9" true false false; fine_increase_key;
        key "ArrowLeft" true true false]
       (keydown fine_decrease_key (lesson_world (float_of_Z 1)))).
Proof.
  apply keyboard_keeps_grid.
  split; [reflexivity|]. split.
  - exists 3%nat. split; [reflexivity|].
    exists 95%Z. split; [lia | vm_compute; reflexivity].
  - cbn. exists 95%Z. split; [lia | vm_compute; reflexivity].
Defined.

(** ** Bounds are kept where the code clamps (exact arithmetic) *)

Section BoundsKept.
Local Open Scope Q_scope.

(** X25.  Where the code clamps, the bounds hold: for a configuration whose
    bounds are ordered multiples of 0.01, every sequence of directional
    [setPlaybackRate] calls, fine or coarse, with or without wrap, leaves a
    persisted rate within [minRate, maxRate] if it was so before. *)
Theorem directional_sequences_within_bounds
    (calls : list (RateArg Q * Options)) (w : World Q) :
  bounds_ok (config (state w)) ->
  Forall (fun call => is_directional (fst call)) calls ->
  persisted_within_bounds w ->
  persisted_within_bounds
    (fold_left (fun w call => setPlaybackRate (fst call) (snd call) w) calls w).
Proof. apply directional_calls_stay_within_bounds. Qed.

(** X26.  The popup's [setRate] stores a rate within [minRate, maxRate]
    whatever rate it is asked for, for a configuration whose bounds are
    ordered multiples of 0.01. *)
Theorem popup_rate_within_bounds (b : Browser Q) (rate : Q) :
  bounds_ok (currentConfig (popup b)) ->
  exists r, udemy_playback_rate (storage (world (setRate rate b))) = Some r
            /\ within_bounds (currentConfig (popup b)) r.
Proof. apply setRate_within_bounds. Qed.

End BoundsKept.

Lemma default_bounds_ok : bounds_ok (DEFAULT_CONFIG (num:=Q)).
Proof.
  split; [exists 50%Z; reflexivity|].
  split; [exists 300%Z; reflexivity|]. vm_compute. discriminate.
Defined.

Lemma directional_sequences_within_bounds_witness :
  persisted_within_bounds
    (fold_left (fun w call => setPlaybackRate (fst call) (snd call) w)
       [(increase, fine_options); (decrease, coarse_options)]
       (lesson_world (295 # 100)%Q)).
Proof.
  apply directional_sequences_within_bounds.
  - exact default_bounds_ok.
  - repeat constructor.
  - exact I.
Defined.

Lemma popup_rate_within_bounds_witness :
  exists r,
    udemy_playback_rate
      (storage (world (setRate (7 # 1)%Q (popup_over (lesson_world 1%Q)))))
    = Some r
    /\ within_bounds DEFAULT_CONFIG r.
Proof.
  apply (popup_rate_within_bounds (popup_over (lesson_world 1%Q)) (7 # 1)%Q).
  exact default_bounds_ok.
Defined.

(** ** Opening the popup *)

Section PopupInit.
Context {num : Type} `{JsNumber num}.

(** X27.  Opening the popup only reads: the store and the page are
    untouched, and the popup shows the persisted rate (1.0 when none is
    stored) as current rate, speed display and slider position, under the
    stored configuration merged over the defaults.  In particular, opened
    after a [setPlaybackRate] that found a video, it shows that video's
    rate. *)
Theorem init_shows_persisted (b : Browser num) :
  let b' := init b in
  let shown := default (of_Z 1) (udemy_playback_rate (storage (world b))) in
  world b' = world b
  /\ currentRate (popup b') = shown
  /\ currentSpeed (popup b') = shown
  /\ speedSlider (popup b') = shown
  /\ currentConfig (popup b')
     = match udemy_config (storage (world b)) with
       | Some stored => merge_config DEFAULT_CONFIG stored
       | None => DEFAULT_CONFIG
       end
  /\ forall (w : World num) rate options video,
       world b = setPlaybackRate rate options w ->
       currentVideo_or_find w = Some video ->
       currentRate (popup b') = playbackRate (deref (world b) video).
Proof.
  cbv zeta. unfold init, popup_loadConfig, updateSpeedDisplay, set_popup.
  cbn [world popup currentRate currentSpeed speedSlider currentConfig].
  repeat split.
  intros w rate options video Hworld Hvideo.
  pose proof (setPlaybackRate_video w rate options video Hvideo) as Hset.
  cbv zeta in Hset. destruct Hset as (Hstored & _ & _ & Hplay & _).
  rewrite Hworld, Hstored, Hplay. reflexivity.
Qed.

End PopupInit.

Lemma init_shows_persisted_witness :
  let w := keydown fine_increase_key (lesson_world (float_of_Z 1)) in
  currentRate (popup (init (popup_over w))) = playbackRate (deref w 3%nat).
Proof.
  cbv zeta.
  destruct (init_shows_persisted
              (popup_over (keydown fine_increase_key (lesson_world (float_of_Z 1)))))
    as (_ & _ & _ & _ & _ & Hvideo).
  apply (Hvideo (lesson_world (float_of_Z 1)) increase fine_options 3%nat);
    reflexivity.
Defined.
